(** * Sorting-data-of-files: the merge engine and its adapters

    A shallow embedding of the Python sources
    ([functions.py], [file_generators.py], [file_readers.py],
    [data_clients.py], [main.py]) and the properties of the merge
    engine proved over it.

    Conventions of the embedding:
    - a Python [str] is the list of its code points ([pystr]);
    - an operation that can raise returns a [result];
    - code that writes files or prints returns an [io]: the events it
      produced, in order, and the result it ended with;
    - a Python object mutated by its methods ([ProcessData]) is a record
      passed to the method and returned by it. *)

From Stdlib Require Import ZArith NArith String Ascii Lia.
From stdpp Require Import base decidable option list sorting gmap pretty.

Local Open Scope N_scope.
Local Open Scope list_scope.

(** ** Python values *)

Abbreviation pystr := (list N).

(** A literal of ASCII characters as a Python string. *)
Definition str (s : string) : pystr := N_of_ascii <$> list_ascii_of_string s.

Inductive exn : Type :=
| TypeError
| ValueError (message : pystr)
| KeyError (key : pystr)
| IndexError
| AttributeError
| UnboundLocalError.

Inductive result (A : Type) : Type :=
| Ok (a : A)
| Raise (e : exn).
Arguments Ok {A} a.
Arguments Raise {A} e.

#[global] Instance result_ret : MRet result := λ A a, Ok a.
#[global] Instance result_bind : MBind result := λ A B f m,
  match m with Ok a => f a | Raise e => Raise e end.
#[global] Instance result_fmap : FMap result := λ A B f m,
  match m with Ok a => Ok (f a) | Raise e => Raise e end.

(** [[f(x) for x in l]] where [f] can raise: the first failure, in list
    order, ends the comprehension. *)
Fixpoint comprehension {A B} (f : A → result B) (l : list A) : result (list B) :=
  match l with
  | [] => Ok []
  | x :: l' => y ← f x; ys ← comprehension f l'; Ok (y :: ys)
  end.

(** *** Comparison of sequences

    [a < b] on Python lists: the first position where the elements are
    not [==] decides, with the elements' own [<] (which can raise); if
    there is none the shorter list is the smaller. *)
Section ListLt.
Context {A : Type} `{EqDecision A} (elt_lt : A → A → result bool).

Fixpoint list_lt (a b : list A) : result bool :=
  match a, b with
  | [], [] => Ok false
  | [], _ :: _ => Ok true
  | _ :: _, [] => Ok false
  | x :: a', y :: b' => if decide (x = y) then list_lt a' b' else elt_lt x y
  end.
End ListLt.

(** [str < str]: code point by code point. *)
Definition char_lt (c d : N) : result bool := Ok (c <? d).
Definition str_lt (s t : pystr) : result bool := list_lt char_lt s t.

(** *** [list.sort] and [sorted]

    Python's sort is stable and only calls [<] on the keys; when a call
    raises, the sort raises. It is embedded as a stable insertion sort over
    the decorated list. For the keys of this program a sort returns exactly
    when [<] is defined between all the keys ([sort_decorated_comparable],
    [sort_decorated_total]), so the choice of the comparisons does not
    show. *)
Section Sort.
Context {A K : Type} (lt : K → K → result bool).

Fixpoint insert_sorted (x : K * A) (l : list (K * A)) : result (list (K * A)) :=
  match l with
  | [] => Ok [x]
  | y :: l' =>
      b ← lt y.1 x.1;
      if (b : bool) then r ← insert_sorted x l'; Ok (y :: r)
      else Ok (x :: y :: l')
  end.

Fixpoint sort_decorated (l : list (K * A)) : result (list (K * A)) :=
  match l with
  | [] => Ok []
  | x :: l' => s ← sort_decorated l'; insert_sorted x s
  end.

(** [sorted(l, key=key, reverse=descending)]: the keys are computed
    first, for every element; a reversed sort keeps equal elements in
    their original order. *)
Definition sorted (key : A → result K) (descending : bool) (l : list A) : result (list A) :=
  keys ← comprehension key l;
  let decorated := zip keys l in
  s ← (if descending
       then reverse <$> sort_decorated (reverse decorated)
       else sort_decorated decorated);
  Ok (s.*2).
End Sort.

(** *** The [str] methods the program calls

    [str.isdigit], [int] and [str.upper] read the Unicode database. The
    tables below are exact on ASCII; beyond it they list the Latin-1
    superscript digits (digits that [int] rejects) and the two Arabic-Indic
    decimal blocks, and leave every other code point a non-digit that
    [upper] does not change. *)
Definition unicode_decimal (c : N) : option Z :=
  if (48 <=? c) && (c <=? 57) then Some (Z.of_N (c - 48))
  else if (0x660 <=? c) && (c <=? 0x669) then Some (Z.of_N (c - 0x660))
  else if (0x6F0 <=? c) && (c <=? 0x6F9) then Some (Z.of_N (c - 0x6F0))
  else None.

Definition unicode_digit (c : N) : bool :=
  match unicode_decimal c with
  | Some _ => true
  | None => (c =? 0xB2) || (c =? 0xB3) || (c =? 0xB9)
  end.

Definition upper_char (c : N) : N :=
  if (97 <=? c) && (c <=? 122) then c - 32 else c.

(** [s.isdigit()] *)
Definition isdigit (s : pystr) : bool :=
  match s with
  | [] => false
  | _ => forallb unicode_digit s
  end.

(** [s.upper()] *)
Definition upper (s : pystr) : pystr := upper_char <$> s.

(** The most digits [int] converts: [sys.get_int_max_str_digits()], as the
    interpreter starts. *)
Definition int_max_str_digits : Z := 4300.

(** [int(s)] for [s] made of digits: a digit that is not a decimal makes the
    literal invalid, and a literal of more digits than the limit is
    refused. *)
Definition int (s : pystr) : result Z :=
  match mapM unicode_decimal s with
  | Some (d :: ds) =>
      if (int_max_str_digits <? Z.of_nat (length s))%Z
      then Raise (ValueError
                    (str "Exceeds the limit (4300 digits) for integer string conversion: value has "
                     ++ str (pretty (length s))
                     ++ str " digits; use sys.set_int_max_str_digits() to increase the limit"))
      else Ok (fold_left (λ acc d, 10 * acc + d)%Z (d :: ds) 0%Z)
  | _ => Raise (ValueError (str "invalid literal for int() with base 10: '" ++ s ++ str "'"))
  end.

(** [sub in s] *)
Fixpoint starts_with (sub s : pystr) : bool :=
  match sub, s with
  | [], _ => true
  | _ :: _, [] => false
  | c :: sub', d :: s' => (c =? d) && starts_with sub' s'
  end.

Fixpoint contains (sub s : pystr) : bool :=
  starts_with sub s ||
  match s with
  | [] => false
  | _ :: s' => contains sub s'
  end.

(** [s.endswith(suffix)] *)
Definition endswith (s suffix : pystr) : bool :=
  starts_with (reverse suffix) (reverse s).

(** [s.rsplit(sep)] for a one-character separator: the pieces between the
    separators, at least one. *)
Fixpoint rsplit (sep : N) (s : pystr) : list pystr :=
  match s with
  | [] => [[]]
  | c :: s' =>
      if c =? sep then [] :: rsplit sep s'
      else match rsplit sep s' with
           | p :: ps => (c :: p) :: ps
           | [] => [[c]]
           end
  end.

(** [sep.join(pieces)] *)
Fixpoint join (sep : pystr) (pieces : list pystr) : pystr :=
  match pieces with
  | [] => []
  | [p] => p
  | p :: ps => p ++ sep ++ join sep ps
  end.

(** [itertools.zip_longest(a, b)], the fill value being [None]. *)
Fixpoint zip_longest {A B} (a : list A) (b : list B) : list (option A * option B) :=
  match a, b with
  | [], _ => (λ y, (None, Some y)) <$> b
  | _, [] => (λ x, (Some x, None)) <$> a
  | x :: a', y :: b' => (Some x, Some y) :: zip_longest a' b'
  end.

(** ** functions.py *)
Module functions.

(** An element of a sort key: [int] or [str]. *)
Inductive token : Type :=
| TInt (n : Z)
| TStr (s : pystr).

#[global] Instance token_eq_dec : EqDecision token.
Proof. solve_decision. Defined.

(** [<] between two elements of a key: defined inside a type only. *)
Definition token_lt (x y : token) : result bool :=
  match x, y with
  | TInt m, TInt n => Ok (m <? n)%Z
  | TStr s, TStr t => str_lt s t
  | _, _ => Raise TypeError
  end.

Definition key_lt : list token → list token → result bool := list_lt token_lt.

Definition is_ascii_digit (c : N) : bool := (48 <=? c) && (c <=? 57).

(** [re.split('([0-9]+)', data)]: the text between the digit runs and,
    the group being captured, the digit runs themselves; [cur] is the
    piece being read and [in_run] tells whether it is a digit run. *)
Fixpoint re_split_from (cur : pystr) (in_run : bool) (data : pystr) : list pystr :=
  match data with
  | [] => if in_run then [cur; []] else [cur]
  | c :: rest =>
      if is_ascii_digit c then
        if in_run then re_split_from (cur ++ [c]) true rest
        else cur :: re_split_from [c] true rest
      else
        if in_run then cur :: re_split_from [c] false rest
        else re_split_from (cur ++ [c]) false rest
  end.

Definition re_split (data : pystr) : list pystr := re_split_from [] false data.

(** [convert = lambda element: int(element) if element.isdigit() else element.upper()] *)
Definition convert (element : pystr) : result token :=
  if isdigit element then TInt <$> int element else Ok (TStr (upper element)).

(** [alphanum_key = lambda data: [convert(header) for header in re.split('([0-9]+)', data)]] *)
Definition alphanum_key (data : pystr) : result (list token) :=
  comprehension convert (re_split data).

Definition sort_alphanumeric (strings : list pystr) (descending : bool) : result (list pystr) :=
  sorted key_lt alphanum_key descending strings.

Definition order_record (record : list pystr) (messy_file_headers : list pystr)
  : result (list pystr) :=
  let couple := zip messy_file_headers record in
  couple ← sorted key_lt (λ data : pystr * pystr, alphanum_key data.1) false couple;
  (* unpacking the transposed pairs into two names needs a pair *)
  match couple with
  | [] => Raise (ValueError (str "not enough values to unpack (expected 2, got 0)"))
  | _ => Ok (couple.*2)
  end.

End functions.

(** ** Effects

    What the program does to the outside: it prints ([Stdout]), creates the
    result directory and writes files. One [with open(...)] block is one
    event, carrying everything written inside it. *)
Inductive event : Type :=
| Stdout (text : pystr)
| MakeDir (directory : pystr)
| FileWrite (file : pystr) (text : pystr)
| FileAppend (file : pystr) (text : pystr).

Definition io (A : Type) : Type := list event * result A.

#[global] Instance io_ret : MRet io := λ A a, ([], Ok a).
#[global] Instance io_bind : MBind io := λ A B f m,
  match m.2 with
  | Ok a => (m.1 ++ (f a).1, (f a).2)
  | Raise e => (m.1, Raise e)
  end.

Definition emit (e : event) : io unit := ([e], Ok ()).
Definition lift {A} (r : result A) : io A := ([], r).

(** [open(file, mode, encoding=...)] checks its arguments before it touches
    the file: a binary mode takes no encoding. *)
Inductive open_mode : Type := mode_r | mode_rb | mode_w | mode_a.

Definition open (mode : open_mode) (encoding : option pystr) : result unit :=
  match mode, encoding with
  | mode_rb, Some _ => Raise (ValueError (str "binary mode doesn't take an encoding argument"))
  | _, _ => Ok ()
  end.

(** ** file_generators.py *)
Module file_generators.

Inductive generator_class : Type := TSVFileGenerator.

Record FileGenerator : Type := {
  generator : generator_class;
  file : pystr
}.

(** [FileGenerator.__init__] *)
Definition FileGenerator_init (cls : generator_class) (directory file_name extension : pystr)
  : FileGenerator :=
  {| generator := cls; file := directory ++ file_name ++ str "." ++ extension |}.

(** [TSVFileGenerator.set_headers] *)
Definition set_headers (self : FileGenerator) (headers : list pystr) : io unit :=
  _ ← lift (open mode_w (Some (str "utf-8")));
  emit (FileWrite (file self) (join [9] headers ++ [10])).

(** The text of a cell: [f"{value if value is not None else ''}"]. *)
Definition cell_text (value : option pystr) : pystr := default [] value.

(** The loop of [set_data] over [enumerate(data)], from [records_counter]
    on; the result is the text written. *)
Fixpoint write_lines (num_records records_counter : Z) (data : list (list (option pystr)))
  : pystr :=
  match data with
  | [] => []
  | line :: data' =>
      concat ((λ value, cell_text value ++ [9]) <$> line)
      ++ (if (records_counter <? num_records)%Z then [10] else [])
      ++ write_lines num_records (records_counter + 1) data'
  end.

(** [TSVFileGenerator.set_data] *)
Definition set_data (self : FileGenerator) (data : list (list (option pystr))) : io unit :=
  _ ← lift (open mode_a (Some (str "utf-8")));
  let num_records := (Z.of_nat (length data) - 1)%Z in
  emit (FileAppend (file self) (write_lines num_records 0 data)).

(** [FileGeneratorFactory]: the dictionary of formats. A value [None] is
    an extension registered with [None]. *)
Definition FileGeneratorFactory : gmap pystr (option generator_class) :=
  {[ str "tsv" := Some TSVFileGenerator ]}.

Definition register (formats : gmap pystr (option generator_class))
    (extension : pystr) (file_generator : option generator_class)
  : gmap pystr (option generator_class) :=
  <[ extension := file_generator ]> formats.

Definition not_supported (extension : pystr) : pystr :=
  str "The extension '" ++ extension ++ str "' is not supported.".

(** [get_file_generator]: [self._formats[extension]] is a subscript. *)
Definition get_file_generator (formats : gmap pystr (option generator_class))
    (directory file_name extension : pystr) : result FileGenerator :=
  match formats !! extension with
  | None => Raise (KeyError extension)
  | Some None => Raise (ValueError (not_supported extension))
  | Some (Some file_generator) =>
      Ok (FileGenerator_init file_generator directory file_name extension)
  end.

End file_generators.

(** ** file_readers.py *)
Module file_readers.

(** What the decoders find in a file; the parsing of the three formats is
    outside the embedding. A file of the readers of lines is taken to have
    a first line and to be read to its end; [line_readers], below, embeds
    these readers line by line, with the errors that end their
    generators. *)
Record file_content : Type := {
  header_names : list pystr;        (* the column names header discovery finds *)
  record_rows : list (list pystr);  (* the records of the line-based decoders *)
  items_kv : list (pystr * pystr)   (* the key-value items under 'fields.item' *)
}.

(** The files of the machine, by path. *)
Definition disk : Type := pystr → file_content.

Inductive reader_class : Type := CSVFileReader | JSONFileReader | XMLFileReader.

Definition extension (cls : reader_class) : pystr :=
  match cls with
  | CSVFileReader => str ".csv"
  | JSONFileReader => str ".json"
  | XMLFileReader => str ".xml"
  end.

(** A reader; [initialised] is false when [__init__] did not find the
    class's extension at the end of the name and set no attribute. *)
Record FileReader : Type := {
  reader : reader_class;
  initialised : bool;
  file_name : pystr;
  path : pystr;
  headers : list pystr
}.

(** [FileReader.__init__] *)
Definition FileReader_init (cls : reader_class) (path file_name : pystr) : FileReader :=
  {| reader := cls;
     initialised := endswith file_name (extension cls);
     file_name := file_name;
     path := path;
     headers := [] |}.

(** A generator that has not been advanced yet: the records it will
    yield, or the exception its first step raises. *)
Definition generator : Type := result (list (list pystr)).

Definition FileReaderFactory : gmap pystr reader_class :=
  {[ str "csv" := CSVFileReader; str "json" := JSONFileReader; str "xml" := XMLFileReader ]}.

Definition not_supported (extension : pystr) : pystr :=
  str "The extension '" ++ extension ++ str "' is not supported.".

(** [get_file_reader]: [self._formats.get(extension)] *)
Definition get_file_reader (formats : gmap pystr reader_class) (path file : pystr)
  : result FileReader :=
  let extension := List.last (rsplit 46 file) [] in
  match formats !! extension with
  | None => Raise (ValueError (not_supported extension))
  | Some file_reader => Ok (FileReader_init file_reader path file)
  end.

(** The file a reader opens: [f'{self.path}{self.file_name}']. *)
Definition opened (d : disk) (self : FileReader) (mode : open_mode) : result file_content :=
  if initialised self then
    _ ← open mode (Some (str "utf-8"));
    Ok (d (path self ++ file_name self))
  else Raise AttributeError.

(** [get_headers], by class. *)
Definition get_headers (d : disk) (self : FileReader) : result FileReader :=
  let found mode := content ← opened d self mode; Ok (header_names content) in
  names ← match reader self with
          | CSVFileReader => found mode_r
          | JSONFileReader => found mode_rb
          | XMLFileReader => found mode_r
          end;
  Ok {| reader := reader self; initialised := initialised self;
        file_name := file_name self; path := path self; headers := names |}.

(** The loop of [JSONFileReader.read_record] over the key-value items. *)
Fixpoint read_items (data_by_record : nat) (raw_data : list pystr)
    (items : list (pystr * pystr)) : list (list pystr) :=
  match items with
  | [] => []
  | (_, value) :: items' =>
      let raw_data := raw_data ++ [value] in
      if decide (length raw_data = data_by_record)
      then raw_data :: read_items data_by_record [] items'
      else read_items data_by_record raw_data items'
  end.

(** [read_record], by class. *)
Definition read_record (d : disk) (self : FileReader) (data_by_record : nat) : generator :=
  match reader self with
  | CSVFileReader => content ← opened d self mode_r; Ok (record_rows content)
  | JSONFileReader =>
      content ← opened d self mode_rb;
      Ok (read_items data_by_record [] (items_kv content))
  | XMLFileReader => content ← opened d self mode_r; Ok (record_rows content)
  end.

End file_readers.

(** ** data_clients.py *)

(** [list(s)] for a Python set [s]: the elements, once each, in an order
    the language does not fix. *)
Class SetOrder : Type := {
  set_to_list : gset pystr → list pystr;
  set_to_list_NoDup : ∀ s, NoDup (set_to_list s);
  elem_of_set_to_list : ∀ s x, x ∈ set_to_list s ↔ x ∈ s
}.

(** What [os.path.exists] answers for a path when the run begins. *)
Class FileSystem : Type := {
  path_exists : pystr → bool
}.

Module data_clients.
Import functions.

(** *** WriteData *)

(** [_file_generator] is [None] when [__init__] caught the factory's
    error and left the attribute unset. *)
Record WriteData : Type := {
  directory : pystr;
  _file_generator : option file_generators.FileGenerator
}.

(** The default values of [WriteData.__init__]'s parameters. *)
Definition default_base_directory : pystr := str "../data/".
Definition default_file_name : pystr := str "result".
Definition default_extension : pystr := str "tsv".

(** [WriteData.__init__]: only [ValueError] is caught. *)
Definition WriteData_init (base_directory file_name extension : pystr) : io WriteData :=
  let directory := base_directory ++ str "result/" in
  match file_generators.get_file_generator
          file_generators.FileGeneratorFactory directory file_name extension with
  | Ok file_generator =>
      mret {| directory := directory; _file_generator := Some file_generator |}
  | Raise (ValueError message) =>
      _ ← emit (Stdout (str "Error: " ++ message));
      mret {| directory := directory; _file_generator := None |}
  | Raise e => lift (Raise e)
  end.

(** [create_result_directory] of functions.py: [os.mkdir] is called when
    [os.path.exists] finds no such path. Nothing else makes the directory
    between the test and the call, so [os.mkdir] does not find it existing
    and the message of [FileExistsError] is not printed. *)
Definition create_result_directory `{FileSystem} (directory : pystr) : io unit :=
  if path_exists directory then mret () else emit (MakeDir directory).

Definition write_headers `{FileSystem} (self : WriteData) (headers : list pystr) : io unit :=
  _ ← create_result_directory (directory self);
  match _file_generator self with
  | Some file_generator => file_generators.set_headers file_generator headers
  | None => lift (Raise AttributeError)
  end.

Definition write_data (self : WriteData) (data : list (list (option pystr))) : io unit :=
  match _file_generator self with
  | Some file_generator => file_generators.set_data file_generator data
  | None => lift (Raise AttributeError)
  end.

(** [WriteData.__str__] *)
Definition WriteData_str (self : WriteData) : result pystr :=
  match _file_generator self with
  | Some file_generator => Ok (file_generators.file file_generator)
  | None => Raise AttributeError
  end.

(** *** ProcessData *)

(** The value of [file_processing_data] for a file. *)
Record processing_data : Type := {
  header_comparison : list bool;
  rearrangement_needed : bool
}.

Record ProcessData : Type := {
  headers : list pystr;
  file_processing_data : gmap pystr processing_data;
  _path : pystr;
  _file_names : list pystr;
  _headers_by_file : list (list pystr)
}.

(** [ProcessData.__init__] *)
Definition ProcessData_init (path : pystr) : ProcessData :=
  {| headers := []; file_processing_data := ∅; _path := path;
     _file_names := []; _headers_by_file := [] |}.

Definition get_headers (self : ProcessData) : list pystr := headers self.

Definition save_file_name (self : ProcessData) (file_name : pystr) : ProcessData :=
  {| headers := headers self; file_processing_data := file_processing_data self;
     _path := _path self; _file_names := _file_names self ++ [file_name];
     _headers_by_file := _headers_by_file self |}.

Definition set_headers_by_file (self : ProcessData) (hs : list (list pystr)) : ProcessData :=
  {| headers := headers self; file_processing_data := file_processing_data self;
     _path := _path self; _file_names := _file_names self; _headers_by_file := hs |}.

Definition set_headers (self : ProcessData) (hs : list pystr) : ProcessData :=
  {| headers := hs; file_processing_data := file_processing_data self;
     _path := _path self; _file_names := _file_names self;
     _headers_by_file := _headers_by_file self |}.

Definition set_file_processing_data (self : ProcessData)
    (data : gmap pystr processing_data) : ProcessData :=
  {| headers := headers self; file_processing_data := data;
     _path := _path self; _file_names := _file_names self;
     _headers_by_file := _headers_by_file self |}.

(** One file of [get_all_headers]. *)
Definition get_file_headers (d : file_readers.disk) (self : ProcessData) (file : pystr)
  : io ProcessData :=
  match file_readers.get_file_reader file_readers.FileReaderFactory (_path self) file with
  | Raise (ValueError message) =>
      _ ← emit (Stdout (str "Error: " ++ message)); mret self
  | Raise e => lift (Raise e)
  | Ok file_reader =>
      let self := save_file_name self file in
      file_reader ← lift (file_readers.get_headers d file_reader);
      mret (set_headers_by_file self
              (_headers_by_file self ++ [file_readers.headers file_reader]))
  end.

(** [for x in l: self = body(self, x)] with effects. *)
Fixpoint for_each {A S} (body : S → A → io S) (l : list A) (s : S) : io S :=
  match l with
  | [] => mret s
  | x :: l' => s ← body s x; for_each body l' s
  end.

Definition get_all_headers (d : file_readers.disk) (self : ProcessData)
    (files : list (list pystr)) : io ProcessData :=
  for_each (λ self files_by_extension, for_each (get_file_headers d) files_by_extension self)
    files self.

Section WithSetOrder.
Context `{SetOrder}.

(** The set [sort_headers] gathers: the first list whole, then the
    names of the other lists that are not in it yet. *)
Definition gather_headers (first : list pystr) (others : list (list pystr)) : gset pystr :=
  fold_left
    (λ set_headers file_headers,
       fold_left
         (λ set_headers (header : pystr),
            if decide (header ∈ set_headers) then set_headers
            else set_headers ∪ {[ header ]})
         file_headers set_headers)
    others (list_to_set first).

Definition sort_headers (self : ProcessData) : result ProcessData :=
  match _headers_by_file self with
  | [] => Raise UnboundLocalError
  | first :: others =>
      hs ← sort_alphanumeric (set_to_list (gather_headers first others)) false;
      Ok (set_headers self hs)
  end.
End WithSetOrder.

(** [header in file_headers] *)
Definition is_in (header : pystr) (file_headers : list pystr) : bool :=
  bool_decide (header ∈ file_headers).

Definition make_file_processing_data (self : ProcessData) : result ProcessData :=
  data ← foldl
    (λ acc (entry : pystr * list pystr),
       data ← acc;
       let '(file_name, file_headers) := entry in
       let headers_list := (λ header, is_in header file_headers) <$> headers self in
       sorted_headers ← sort_alphanumeric file_headers false;
       Ok (<[ file_name :=
                {| header_comparison := headers_list;
                   rearrangement_needed := bool_decide (file_headers ≠ sorted_headers) |} ]>
             data))
    (Ok (file_processing_data self))
    (zip (_file_names self) (_headers_by_file self));
  Ok (set_file_processing_data self data).

(** One file of [get_data_generators]. *)
Definition get_data_generator (d : file_readers.disk) (self : ProcessData)
    (data_generators : list file_readers.generator) (entry : pystr * list pystr)
  : io (list file_readers.generator) :=
  let '(file, headers) := entry in
  let data_by_record := if contains (str ".json") file then length headers else 0%nat in
  match file_readers.get_file_reader file_readers.FileReaderFactory (_path self) file with
  | Raise (ValueError message) =>
      _ ← emit (Stdout (str "Error: " ++ message)); mret data_generators
  | Raise e => lift (Raise e)
  | Ok file_reader =>
      mret (data_generators ++ [file_readers.read_record d file_reader data_by_record])
  end.

Definition get_data_generators (d : file_readers.disk) (self : ProcessData)
  : io (list file_readers.generator) :=
  for_each (get_data_generator d self) (zip (_file_names self) (_headers_by_file self)) [].

(** [l[i]] *)
Definition subscript {A} (l : list A) (i : nat) : result A :=
  match l !! i with
  | Some x => Ok x
  | None => Raise IndexError
  end.

(** [d[k]] *)
Definition item {V} (d : gmap pystr V) (k : pystr) : result V :=
  match d !! k with
  | Some v => Ok v
  | None => Raise (KeyError k)
  end.

Definition complete_record (self : ProcessData) (record : list pystr) (file_position : nat)
  : result (list (option pystr)) :=
  file_name ← subscript (_file_names self) file_position;
  data ← item (file_processing_data self) file_name;
  Ok ((λ pair : option pystr * option bool,
         let '(data, is_header) := pair in
         if default false is_header then data else None)
        <$> zip_longest record (header_comparison data)).

(** [itertools.zip_longest] over any number of iterators: [n] rounds, each
    taking the next element of every iterator that still has one. *)
Fixpoint rounds {A} (n : nat) (iterators : list (list A)) : list (list (option A)) :=
  match n with
  | O => []
  | S n' => (head <$> iterators) :: rounds n' (tail <$> iterators)
  end.

Definition zip_longest_all {A} (iterators : list (list A)) : list (list (option A)) :=
  rounds (max_list (length <$> iterators)) iterators.

(** [<] between two cells: [None] is not ordered. *)
Definition cell_lt (x y : option pystr) : result bool :=
  match x, y with
  | Some s, Some t => str_lt s t
  | _, _ => Raise TypeError
  end.

Definition record_lt : list (option pystr) → list (option pystr) → result bool :=
  list_lt cell_lt.

(** [sorting.sort(key=lambda data: data[0:n])] *)
Definition sort_records (n : nat) (sorting : list (list (option pystr)))
  : result (list (list (option pystr))) :=
  sorted record_lt (λ data, Ok (take n data)) false sorting.

(** The inner loop of [process_data], over [enumerate(data_tuple)] from
    [index] on. *)
Fixpoint collect (self : ProcessData) (index : nat) (data_tuple : list (option (list pystr)))
    (sorting : list (list (option pystr))) : result (list (list (option pystr))) :=
  match data_tuple with
  | [] => Ok sorting
  | data :: data_tuple' =>
      sorting ← match data with
                | None => Ok sorting
                | Some data =>
                    file_name ← subscript (_file_names self) index;
                    entry ← item (file_processing_data self) file_name;
                    data ← (if rearrangement_needed entry
                            then file_headers ← subscript (_headers_by_file self) index;
                                 order_record data file_headers
                            else Ok data);
                    data ← complete_record self data index;
                    Ok (sorting ++ [data])
                end;
      collect self (S index) data_tuple' sorting
  end.

Definition reading_message (files : nat) : pystr :=
  str "52 thousand records of " ++ str (pretty files) ++ str "have been reading."
  ++ [10] ++ str " Please wait: writing data in 'result' file...".

(** The body of the loop of [process_data], on the variables [sorting]
    and [partial_write]. *)
Definition process_round (self : ProcessData) (state : list (list (option pystr)) * bool)
    (data_tuple : list (option (list pystr))) : io (list (list (option pystr)) * bool) :=
  let '(sorting, partial_write) := state in
  '(sorting, partial_write) ←
    (if (52000 <? Z.of_nat (length sorting))%Z
     then
       file_writer ← WriteData_init default_base_directory default_file_name default_extension;
       sorting ← lift (sort_records 2 sorting);
       _ ← emit (Stdout (reading_message (length (_file_names self))));
       _ ← write_data file_writer sorting;
       mret ([], true)
     else mret (sorting, partial_write));
  sorting ← lift (collect self 0 data_tuple sorting);
  mret (sorting, partial_write).

Definition process_data (d : file_readers.disk) (self : ProcessData)
  : io (ProcessData * (bool * list (list (option pystr)))) :=
  data_generators ← get_data_generators d self;
  self ← lift (make_file_processing_data self);
  iterators ← lift (comprehension (λ data_generator, data_generator) data_generators);
  '(sorting, partial_write) ←
    for_each (process_round self) (zip_longest_all iterators) ([], false);
  sorting ← lift (sort_records 3 sorting);
  mret (self, (partial_write, sorting)).

End data_clients.

(** ** main.py *)
Module main.
Import data_clients.

Section WithSetOrder.
Context `{SetOrder} `{FileSystem}.

Definition process_headers (d : file_readers.disk) (processing : ProcessData)
    (file_writer : WriteData) (files : list (list pystr)) : io ProcessData :=
  processing ← get_all_headers d processing files;
  processing ← lift (sort_headers processing);
  _ ← write_headers file_writer (get_headers processing);
  mret processing.

Definition written_message (file : pystr) : pystr :=
  [10] ++ str "The data have been sorted and written in '" ++ file ++ str "'.".

Definition process_data (d : file_readers.disk) (path : pystr) (files : list (list pystr))
  : io unit :=
  let processing := ProcessData_init path in
  file_writer ← WriteData_init path default_file_name default_extension;
  processing ← process_headers d processing file_writer files;
  '(_, (partial_write, sorted_data)) ← data_clients.process_data d processing;
  _ ← write_data file_writer sorted_data;
  file ← lift (WriteData_str file_writer);
  emit (Stdout (written_message file)).
End WithSetOrder.

End main.

(** A machine on which no directory of results exists when the run
    begins: the runs stated without a file system are runs on it. *)
#[global] Instance no_result_directory : FileSystem := {| path_exists := λ _, false |}.

(** The order of [elements] is one order a set can be listed in. *)
#[global] Instance elements_order : SetOrder :=
  {| set_to_list := elements;
     set_to_list_NoDup := NoDup_elements;
     elem_of_set_to_list := λ s x, elem_of_elements s x |}.

(** ** More [str] methods

    The methods the selection of the files and the readers of lines call. *)

(** [s.replace(old, new)] for an [old] that is not empty: the occurrences
    are found from the left, each after the end of the one before; [skip]
    counts the characters of an occurrence still to pass. *)
Fixpoint replace_from (old new : pystr) (skip : nat) (s : pystr) : pystr :=
  match s with
  | [] => []
  | c :: s' =>
      match skip with
      | S skip' => replace_from old new skip' s'
      | O =>
          if starts_with old s then new ++ replace_from old new (length old - 1) s'
          else c :: replace_from old new 0 s'
      end
  end.

(** [s.replace(old, new)]: an empty [old] occurs before every character
    and at the end. *)
Definition replace (old new s : pystr) : pystr :=
  match old with
  | [] => new ++ concat ((λ c, c :: new) <$> s)
  | _ => replace_from old new 0 s
  end.

(** [s.lstrip(chars)] and [s.rstrip(chars)] *)
Fixpoint lstrip (chars s : pystr) : pystr :=
  match s with
  | [] => []
  | c :: s' => if bool_decide (c ∈ chars) then lstrip chars s' else s
  end.

Definition rstrip (chars s : pystr) : pystr := reverse (lstrip chars (reverse s)).

(** [s.split(sep)] for a one-character separator: without a maximum the
    pieces are those of [rsplit]. *)
Definition split (sep : N) (s : pystr) : list pystr := rsplit sep s.

(** [s.find(c)] and [s.rfind(c)] for one character: the index of its first
    or last occurrence, [-1] when there is none. *)
Fixpoint find_from (c : N) (i : Z) (s : pystr) : Z :=
  match s with
  | [] => -1
  | d :: s' => if d =? c then i else find_from c (i + 1) s'
  end.

Definition find (c : N) (s : pystr) : Z := find_from c 0 s.

Fixpoint rfind_from (c : N) (i found : Z) (s : pystr) : Z :=
  match s with
  | [] => found
  | d :: s' => rfind_from c (i + 1) (if d =? c then i else found) s'
  end.

Definition rfind (c : N) (s : pystr) : Z := rfind_from c 0 (-1) s.

(** [s[start:stop]] for a [start] that is not negative and a negative
    [stop], which counts from the end. *)
Definition slice (s : pystr) (start stop : Z) : pystr :=
  let stop := Z.max (Z.of_nat (length s) + stop) 0 in
  take (Z.to_nat (stop - start)) (drop (Z.to_nat start) s).

(** ** menu_functions.py *)
Module menu_functions.

(** What the menu does to the console: [print], the prompt of [input] and
    the clearing of the screen. *)
Inductive console_event : Type :=
| Output (text : pystr)
| Prompt (text : pystr)
| Clear.

(** How a function of the menu ends: it returns, or [exit] raises
    [SystemExit], or [input] finds the end of the input. *)
Inductive ending (A : Type) : Type :=
| Returned (a : A)
| SystemExit
| EOFError.
Arguments Returned {A} a.
Arguments SystemExit {A}.
Arguments EOFError {A}.

(** A run over the lines of the standard input: the events, the ending and
    the lines left. *)
Definition console (A : Type) : Type := list console_event * ending A * list pystr.

(** The events [events] happen before the run [run]. *)
Definition after {A} (events : list console_event) (run : console A) : console A :=
  (events ++ run.1.1, run.1.2, run.2).

Definition clear_screen : list console_event := [Clear].

Definition thanks : pystr := [10] ++ str "Thanks for use -Sorting Data of Files- application.".

(** [exit] *)
Definition exit {A} (stdin : list pystr) : console A := ([Output thanks], SystemExit, stdin).

Definition show_menu : list console_event :=
  [ Output ([10; 9; 9] ++ str "-Sorting Data of Files-" ++ [10]);
    Output (str "1. Select the data directory.");
    Output (str "2. Sort the data of the files.");
    Output (str "3. Exit.") ].

Definition choose : pystr := [10] ++ str "Choose one of the options: ".
Definition only_numbers : pystr :=
  str "You can only enter numbers between 1 and 4. Please try again.".
Definition no_option (option : Z) : pystr :=
  str "Sorry, there's no an option number " ++ str (pretty option) ++ str ". Please retry it.".

Definition use_data : pystr :=
  str "Do you want to use the files in 'data' directory? (y/n: another key): ".
Definition note : pystr :=
  [10] ++ str "* NOTE: Please make sure of write the absolute path to the directory.".
Definition enter_path : pystr := str "Enter the path to the data files (to sort): ".
Definition not_valid : pystr := [10] ++ str "* ERROR: The path is not valid.".
Definition try_again : pystr := str "Do you want to try again? (y/n: another key): ".

Section WithStr.
(** [str.lower], [str.strip] and [int] of a string, [None] standing for
    its [ValueError]: the functions of the menu hold for any. *)
Context (lower strip : pystr → pystr) (int_literal : pystr → option Z).

(** [get_option_user]: one turn of the loop for every line read. *)
Fixpoint get_option_user (stdin : list pystr) : console Z :=
  match stdin with
  | [] => ([Prompt choose], EOFError, [])
  | line :: stdin' =>
      match int_literal (strip line) with
      | None => after [Prompt choose; Output only_numbers] (get_option_user stdin')
      | Some option =>
          if ((option <=? 0) || (3 <? option))%Z
          then after [Prompt choose; Output (no_option option)] (get_option_user stdin')
          else ([Prompt choose], Returned option, stdin')
      end
  end.

(** [select_directory]: a turn of the loop reads one, two or three
    lines. *)
Fixpoint select_directory (stdin : list pystr) : console pystr :=
  match stdin with
  | [] => ([Prompt use_data], EOFError, [])
  | use_path :: stdin1 =>
      if decide (strip (lower use_path) = str "y")
      then ([Prompt use_data], Returned (str "../data/"), stdin1)
      else
        match stdin1 with
        | [] => ([Prompt use_data; Output note; Prompt enter_path], EOFError, [])
        | directory_path :: stdin2 =>
            let directory_path := strip directory_path in
            if negb (contains [47] directory_path) && negb (contains [92] directory_path)
            then
              match stdin2 with
              | [] =>
                  ([Prompt use_data; Output note; Prompt enter_path; Output not_valid;
                    Prompt try_again], EOFError, [])
              | retry :: stdin3 =>
                  after [Prompt use_data; Output note; Prompt enter_path; Output not_valid;
                         Prompt try_again]
                    (if decide (strip (lower retry) = str "y")
                     then select_directory stdin3
                     else exit stdin3)
              end
            else
              ([Prompt use_data; Output note; Prompt enter_path],
               Returned (if endswith directory_path [47] then directory_path
                         else directory_path ++ [47]),
               stdin2)
        end
  end.
End WithStr.

End menu_functions.

(** ** functions.py: the selection of the files *)
Module file_selection.

Definition clean_file_path (path : pystr) (list_files : list pystr) : list pystr :=
  (λ file, replace path [] file) <$> list_files.

Definition are_there_files (list_csv list_json list_xml : list pystr) (path : pystr)
  : list (list pystr) :=
  let files := [] in
  let files :=
    if (0 <? length list_csv)%nat then files ++ [clean_file_path path list_csv] else files in
  let files :=
    if (0 <? length list_json)%nat then files ++ [clean_file_path path list_json] else files in
  let files :=
    if (0 <? length list_xml)%nat then files ++ [clean_file_path path list_xml] else files in
  files.

(** [get_files]; [glob] is the directory listing of the machine. *)
Definition get_files (glob : pystr → list pystr) (directory_path : pystr)
  : list (list pystr) :=
  let files_csv := glob (directory_path ++ str "*.csv") in
  let files_json := glob (directory_path ++ str "*.json") in
  let files_xml := glob (directory_path ++ str "*.xml") in
  are_there_files files_csv files_json files_xml directory_path.

(** [get_files_from_dir]: the second value is [None] when no file was
    found. *)
Definition get_files_from_dir (lower strip : pystr → pystr) (glob : pystr → list pystr)
    (stdin : list pystr) : menu_functions.console (pystr * option (list (list pystr))) :=
  match menu_functions.select_directory lower strip stdin with
  | (events, menu_functions.Returned path, stdin') =>
      let files := get_files glob path in
      (events,
       menu_functions.Returned (path, if (length files =? 0)%nat then None else Some files),
       stdin')
  | (events, menu_functions.SystemExit, stdin') => (events, menu_functions.SystemExit, stdin')
  | (events, menu_functions.EOFError, stdin') => (events, menu_functions.EOFError, stdin')
  end.

End file_selection.

(** ** file_readers.py: the decoders of lines

    A text file is the list of its lines, as iterating over the file object
    gives them: every line ends with a newline, but for the last one, which
    may not. *)
Module line_readers.

(** How a generator ends: its function returns, or raises; a
    [StopIteration] that escapes from the body of a generator becomes a
    [RuntimeError]. *)
Inductive generator_end : Type := Exhausted | RaisedIndexError | RaisedRuntimeError.

(** A generator: the records it yields, then its end. *)
Definition generator : Type := list (list pystr) * generator_end.

(** The records [records] are yielded before the generator [rest]. *)
Definition yield (record : list pystr) (rest : generator) : generator :=
  (record :: rest.1, rest.2).

(** [file.readline()] on a file just opened. *)
Definition readline (file : list pystr) : pystr := default [] (head file).

(** *** CSVFileReader *)

(** [line.rstrip('\n').split(',')] *)
Definition cells (line : pystr) : list pystr := split 44 (rstrip [10] line).

Definition CSV_get_headers (file : list pystr) : list pystr := cells (readline file).

Definition CSV_read_record (file : list pystr) : generator :=
  match file with
  | [] => ([], RaisedRuntimeError)
  | _ :: file' => (cells <$> file', Exhausted)
  end.

(** *** XMLFileReader *)

(** The tags [XMLFileReader.__init__] keeps. *)
Record XMLFileReader : Type := {
  _parent : pystr;
  _element : pystr;
  _attribute : pystr;
  _value : pystr
}.

(** The default values of the parameters of [XMLFileReader.__init__], the
    ones the factory builds a reader with. *)
Definition XMLFileReader_init : XMLFileReader :=
  {| _parent := str "objects"; _element := str "object";
     _attribute := str "name"; _value := str "value" |}.

(** The loop of [_read_xml_file_attributes] over the lines of the file. *)
Fixpoint _read_xml_file_attributes (self : XMLFileReader) (captured_names : list pystr)
    (file : list pystr) : list pystr :=
  match file with
  | [] => captured_names
  | line :: file' =>
      if contains (str "<" ++ _element self) line && contains (_attribute self) line then
        let position := (rfind 61 line + 2)%Z in
        let name := slice line position (-3) in
        _read_xml_file_attributes self (captured_names ++ [name]) file'
      else if contains (str "</" ++ _parent self ++ str ">") line then captured_names
      else _read_xml_file_attributes self captured_names file'
  end.

Definition XML_get_headers (self : XMLFileReader) (file : list pystr) : list pystr :=
  _read_xml_file_attributes self [] file.

(** The loop of [XMLFileReader.read_record] over the lines after the
    first. *)
Fixpoint read_lines (self : XMLFileReader) (start_data : bool)
    (captured_records : list pystr) (file : list pystr) : generator :=
  match file with
  | [] => ([], Exhausted)
  | line :: file' =>
      if contains (str "<" ++ _parent self) line
      then read_lines self true captured_records file'
      else if start_data && contains (str "<" ++ _value self ++ str ">") line then
        let position := (find 62 line + 1)%Z in
        match line !! Z.to_nat position with
        | Some c => read_lines self start_data (captured_records ++ [[c]]) file'
        | None => ([], RaisedIndexError)
        end
      else if contains (str "</" ++ _parent self) line
      then yield captured_records (read_lines self false [] file')
      else read_lines self start_data captured_records file'
  end.

Definition XML_read_record (self : XMLFileReader) (file : list pystr) : generator :=
  match file with
  | [] => ([], RaisedRuntimeError)
  | _ :: file' => read_lines self false [] file'
  end.

End line_readers.

(** * Vocabulary of the properties *)

(** In a decorated list sorted with [lt], [a] may stand before [b]: [b < a]
    was false. *)
Definition not_after {A K} (lt : K → K → result bool) (a b : K * A) : Prop :=
  lt b.1 a.1 = Ok false.

(** The same for a list sorted by [key]. *)
Definition key_not_after {A K} (lt : K → K → result bool) (key : A → result K)
    (a b : A) : Prop :=
  ∃ ka kb, key a = Ok ka ∧ key b = Ok kb ∧ lt kb ka = Ok false.

(** A name of ASCII characters. *)
Definition ascii_name (s : pystr) : Prop := Forall (λ c, c < 128) s.

(** A key whose elements alternate between text and number, beginning with
    text when [text] is true. *)
Fixpoint alternating (text : bool) (k : list functions.token) : Prop :=
  match k with
  | [] => True
  | functions.TStr _ :: k' => text = true ∧ alternating false k'
  | functions.TInt _ :: k' => text = false ∧ alternating true k'
  end.

(** A name whose digit runs [int] converts: no piece of the split name that
    is made of digits has more of them than the limit. *)
Definition digit_runs_within_limit (s : pystr) : Prop :=
  Forall (λ piece, isdigit piece = true → (Z.of_nat (length piece) ≤ int_max_str_digits)%Z)
    (functions.re_split s).

(** The pieces of a split name: text without ASCII digits and non-empty
    runs of ASCII digits, in turn. *)
Fixpoint pieces_alternate (text : bool) (pieces : list pystr) : Prop :=
  match pieces with
  | [] => True
  | p :: pieces' =>
      (if text then Forall (λ c, c < 128 ∧ functions.is_ascii_digit c = false) p
       else p ≠ [] ∧ Forall (λ c, functions.is_ascii_digit c = true) p)
      ∧ pieces_alternate (negb text) pieces'
  end.

(** A record of the output: a cell or [None] for every column. *)
Abbreviation record := (list (option pystr)).

(** The file a [WriteData()] made with the default arguments writes. *)
Definition default_file : pystr := str "../data/result/result.tsv".

(** What [set_data] writes for a batch. *)
Definition batch_text (batch : list record) : pystr :=
  file_generators.write_lines (Z.of_nat (length batch) - 1) 0 batch.

(** What a partial flush of [batch] does. *)
Definition flush_events (self : data_clients.ProcessData) (batch : list record) : list event :=
  [ Stdout (data_clients.reading_message (length (data_clients._file_names self)));
    FileAppend default_file (batch_text batch) ].

(** A batch in the order of the first [n] columns: no record is smaller, on
    these columns, than a record before it. *)
Definition sorted_by_columns (n : nat) (batch : list record) : Prop :=
  StronglySorted (λ a b, data_clients.record_lt (take n b) (take n a) = Ok false) batch.

(** The outputs of the rounds, [outs], cut into groups of whole rounds that
    follow each other: [chunks] are the groups concatenated, the first one
    after the records [buffer] already held. *)
Definition grouped (buffer : list record) (outs chunks : list (list record)) : Prop :=
  ∃ (first : list (list record)) (groups : list (list (list record))),
    outs = first ++ concat groups ∧
    chunks = (buffer ++ concat first) :: ((λ group, concat group) <$> groups).

(** [batch] is the partial flush of the buffer [chunk]. *)
Definition flushed (chunk batch : list record) : Prop :=
  (52000 < Z.of_nat (length chunk))%Z ∧ data_clients.sort_records 2 chunk = Ok batch.

(** The elements a round takes: the entries of its tuple that are not
    [None]. *)
Definition taken {A} (data_tuple : list (option A)) : list A := omap id data_tuple.

(** [complete] as the specification words it: walk the bitmap; a true bit
    takes the next cell of the ordered record, a false bit gives the absence
    marker. *)
Fixpoint complete_by_bitmap (ordered_record : list pystr) (presence_bitmap : list bool)
  : record :=
  match presence_bitmap with
  | [] => []
  | true :: bits =>
      match ordered_record with
      | cell :: cells => Some cell :: complete_by_bitmap cells bits
      | [] => None :: complete_by_bitmap [] bits
      end
  | false :: bits => None :: complete_by_bitmap ordered_record bits
  end.

(** The cells of a padded record at the positions where the bitmap is true. *)
Fixpoint present_cells (padded : record) (presence_bitmap : list bool) : record :=
  match padded, presence_bitmap with
  | cell :: cells, bit :: bits =>
      if bit then cell :: present_cells cells bits else present_cells cells bits
  | _, _ => []
  end.

(** The text of a row as the specification words it: every cell and then a
    tab, an absent cell being the empty string. *)
Fixpoint row_text (line : record) : pystr :=
  match line with
  | [] => []
  | Some cell :: line' => cell ++ [9] ++ row_text line'
  | None :: line' => [9] ++ row_text line'
  end.

(** The files of the examples: [a.csv] and [b.csv] are the two sources of
    the specification's merge example, [c.csv] has its columns out of
    order and [j.json] is a nested document. *)
Definition example_file (columns : list string) (rows : list (list string))
  : file_readers.file_content :=
  {| file_readers.header_names := str <$> columns;
     file_readers.record_rows := (λ row : list string, str <$> row) <$> rows;
     file_readers.items_kv := [] |}.

Definition example_disk : file_readers.disk := λ file,
  if decide (file = str "/in/a.csv") then example_file ["D1"; "D2"; "M1"] [["1"; "2"; "x"]]
  else if decide (file = str "/in/b.csv") then example_file ["D1"; "M1"; "M2"] [["1"; "y"; "z"]]
  else if decide (file = str "/in/c.csv")
       then example_file ["M1"; "D2"; "D1"] [["x"; "2"; "1"]; ["y"; "1"; "0"]]
  else {| file_readers.header_names := [str "D1"];
          file_readers.record_rows := [];
          file_readers.items_kv := [(str "D1", str "1"); (str "D1", str "2")] |}.

(** The state of [ProcessData] once the headers of [a.csv] and [b.csv] are
    gathered, sorted and compared. *)
Definition example_processing : data_clients.ProcessData :=
  {| data_clients.headers := [str "D1"; str "D2"; str "M1"; str "M2"];
     data_clients.file_processing_data :=
       {[ str "a.csv" := {| data_clients.header_comparison := [true; true; true; false];
                            data_clients.rearrangement_needed := false |};
          str "b.csv" := {| data_clients.header_comparison := [true; false; true; true];
                            data_clients.rearrangement_needed := false |} ]};
     data_clients._path := str "/in/";
     data_clients._file_names := [str "a.csv"; str "b.csv"];
     data_clients._headers_by_file :=
       [[str "D1"; str "D2"; str "M1"]; [str "D1"; str "M1"; str "M2"]] |}.

(** A source directory holding one delimited file, of the one column D1 and
    [n] rows that all hold the cell 1. *)
Definition long_disk (n : nat) : file_readers.disk := λ _,
  {| file_readers.header_names := [str "D1"];
     file_readers.record_rows := repeat [str "1"] n;
     file_readers.items_kv := [] |}.

(** The state of [ProcessData] for that directory. *)
Definition long_processing : data_clients.ProcessData :=
  {| data_clients.headers := [str "D1"];
     data_clients.file_processing_data :=
       {[ str "a.csv" := {| data_clients.header_comparison := [true];
                            data_clients.rearrangement_needed := false |} ]};
     data_clients._path := str "/in/";
     data_clients._file_names := [str "a.csv"];
     data_clients._headers_by_file := [[str "D1"]] |}.

(** The size of the smallest buffer that is flushed. *)
Definition flush_size : nat := Z.to_nat 52001.

(** * Vocabulary of the further properties *)

(** The number of true bits of a bitmap. *)
Definition true_bits (bits : list bool) : nat := length (filter (λ bit, bit = true) bits).

(** The extension the factory of readers looks a file up by. *)
Definition extension_of (file : pystr) : pystr := List.last (rsplit 46 file) [].

(** A file name whose extension the factory of readers holds. *)
Definition registered (file : pystr) : Prop :=
  is_Some (file_readers.FileReaderFactory !! extension_of file).

#[global] Instance registered_dec (file : pystr) : Decision (registered file).
Proof. unfold registered. apply _. Defined.

(** The line printed for a file without a reader. *)
Definition unsupported_line (file : pystr) : event :=
  Stdout (str "Error: " ++ file_readers.not_supported (extension_of file)).

(** The file names and the header lists of a [ProcessData] go in pairs, and
    every name has a reader. *)
Definition paired (self : data_clients.ProcessData) : Prop :=
  length (data_clients._file_names self) = length (data_clients._headers_by_file self)
  ∧ Forall registered (data_clients._file_names self).

(** A file name a reader of lines is made for: its extension has a reader
    other than the one of JSON, and the name ends with a dot and that
    extension. *)
Definition line_read (file : pystr) : Prop :=
  ∃ cls, file_readers.FileReaderFactory !! extension_of file = Some cls
         ∧ endswith file (file_readers.extension cls) = true
         ∧ cls ≠ file_readers.JSONFileReader.

(** The state of [ProcessData] once the headers of [a.csv] and [c.csv] are
    gathered and sorted. *)
Definition reordered_processing : data_clients.ProcessData :=
  {| data_clients.headers := [str "D1"; str "D2"; str "M1"];
     data_clients.file_processing_data := ∅;
     data_clients._path := str "/in/";
     data_clients._file_names := [str "a.csv"; str "c.csv"];
     data_clients._headers_by_file :=
       [[str "D1"; str "D2"; str "M1"]; [str "M1"; str "D2"; str "D1"]] |}.

(** A directory listing that gives, for the pattern of an extension, the
    names [names] under the directory [path]. *)
Definition lists (glob : pystr → list pystr) (path : pystr) (extension : string)
    (names : list pystr) : Prop :=
  glob (path ++ str "*." ++ str extension) = (λ name, path ++ name) <$> names.

(** The texts a run of the menu printed, the prompts left out. *)
Definition printed (events : list menu_functions.console_event) : list pystr :=
  omap (λ event, match event with menu_functions.Output text => Some text | _ => None end)
    events.

(** The message [get_option_user] prints for a line it rejects. *)
Definition rejection (strip : pystr → pystr) (int_literal : pystr → option Z)
    (line : pystr) : pystr :=
  match int_literal (strip line) with
  | None => menu_functions.only_numbers
  | Some number => menu_functions.no_option number
  end.

(** The text files of the machine: the lines of a file, by path. *)
Definition texts : Type := pystr → list pystr.

(** What the reader of a file name finds in the lines [lines]: the reader
    of XML files for the extension xml, the reader of delimited files
    otherwise. *)
Definition line_headers (file : pystr) (lines : list pystr) : list pystr :=
  if decide (extension_of file = str "xml")
  then line_readers.XML_get_headers line_readers.XMLFileReader_init lines
  else line_readers.CSV_get_headers lines.

Definition line_records (file : pystr) (lines : list pystr) : line_readers.generator :=
  if decide (extension_of file = str "xml")
  then line_readers.XML_read_record line_readers.XMLFileReader_init lines
  else line_readers.CSV_read_record lines.

(** The disk the readers of lines make of the text files: the names of the
    columns and the records yielded, file by file. *)
Definition decoded (t : texts) : file_readers.disk := λ file,
  {| file_readers.header_names := line_headers file (t file);
     file_readers.record_rows := (line_records file (t file)).1;
     file_readers.items_kv := [] |}.

(** A source directory with a delimited file of one row and an XML file of
    one element. *)
Definition example_texts : texts := λ file,
  if decide (file = str "/in/a.csv") then [str "D1,D2,M1" ++ [10]; str "1,2,x" ++ [10]]
  else if decide (file = str "/in/x.xml")
       then [ str "<root>" ++ [10];
              str "<objects>" ++ [10];
              str "<object name=" ++ [34] ++ str "D1" ++ [34; 62; 10];
              str "<value>7</value>" ++ [10];
              str "</object>" ++ [10];
              str "</objects>" ++ [10];
              str "</root>" ++ [10] ]
  else [].

(** A line of a delimited file that holds the cells [cells]: the cells
    joined by commas, with or without a newline at the end. *)
Definition csv_line (cells : list pystr) (line : pystr) : Prop :=
  line = join [44] cells ∨ line = join [44] cells ++ [10].

(** A cell a line of a delimited file can hold: one without a comma and
    without a newline. *)
Definition plain_cell (cell : pystr) : Prop := (44 ∉ cell) ∧ (10 ∉ cell).

(** The number of commas of a line, the newlines at its end left out. *)
Definition commas (line : pystr) : nat := length (filter (λ c, c = 44) (rstrip [10] line)).

(** A line that opens an element named [name]: after any indentation, the
    tag of the element with the attribute, closed at the end of the
    line. *)
Definition header_line (name line : pystr) : Prop :=
  ∃ indent, line = indent ++ str "<object name=" ++ [34] ++ name ++ [34; 62; 10].

(** A line header discovery takes for the opening of an element. *)
Definition taken_for_header (line : pystr) : bool :=
  contains (str "<object") line && contains (str "name") line.

(** A line of an XML file before the end of the first parent: the opening
    of the element named by [tag], or, for [None], a line that is neither
    taken for one nor closes the parent. *)
Definition xml_line (tag : option pystr) (line : pystr) : Prop :=
  match tag with
  | Some name => (61 ∉ name) ∧ header_line name line
  | None => taken_for_header line = false ∧ contains (str "</objects>") line = false
  end.

(** A line that closes the parent. *)
Definition closing_line (line : pystr) : Prop :=
  taken_for_header line = false ∧ contains (str "</objects>") line = true.

(** * Properties *)

(** ** The result monad *)

Lemma bind_Ok {A B} (m : result A) (f : A → result B) (b : B) :
  m ≫= f = Ok b ↔ ∃ a, m = Ok a ∧ f a = Ok b.
Proof.
  destruct m as [a|e]; simpl; split.
  - eauto.
  - by intros (a' & [= <-] & ?).
  - done.
  - by intros (a' & ? & ?).
Qed.

Lemma fmap_Ok {A B} (m : result A) (f : A → B) (b : B) :
  f <$> m = Ok b ↔ ∃ a, m = Ok a ∧ b = f a.
Proof.
  destruct m as [a|e]; simpl; split.
  - intros [= <-]. eauto.
  - by intros (a' & [= <-] & ->).
  - done.
  - by intros (a' & ? & ?).
Qed.

Lemma comprehension_Ok {A B} (f : A → result B) (l : list A) (ys : list B) :
  comprehension f l = Ok ys ↔ Forall2 (λ x y, f x = Ok y) l ys.
Proof.
  revert ys. induction l as [|x l IH]; intros ys; simpl.
  - split; [intros [= <-]; constructor | by inversion 1].
  - split.
    + intros (y & Hy & (ys' & Hys & [= <-])%bind_Ok)%bind_Ok.
      constructor; [done | by apply IH].
    + inversion 1 as [|? y ? ys' Hy Hys]; subst.
      rewrite Hy. simpl. apply IH in Hys. by rewrite Hys.
Qed.

Lemma comprehension_total {A B} (f : A → result B) (l : list A) :
  Forall (λ x, ∃ y, f x = Ok y) l → ∃ ys, comprehension f l = Ok ys.
Proof.
  induction 1 as [|x l [y Hy] _ [ys Hys]]; simpl; [by eexists |].
  rewrite Hy. simpl. rewrite Hys. by eexists.
Qed.

(** ** Sequences compare like their first difference *)
Section ListLtFacts.
Context {A : Type} `{EqDecision A} (elt_lt : A → A → result bool).

Hypothesis elt_lt_asym : ∀ x y, elt_lt x y = Ok true → elt_lt y x = Ok false.

Lemma list_lt_asym (a b : list A) :
  list_lt elt_lt a b = Ok true → list_lt elt_lt b a = Ok false.
Proof.
  revert b. induction a as [|x a IH]; intros [|y b]; simpl; try done.
  destruct (decide (x = y)) as [->|Hne].
  - rewrite decide_True by done. apply IH.
  - rewrite decide_False by congruence. apply elt_lt_asym.
Qed.

Lemma list_lt_refl (a : list A) : list_lt elt_lt a a = Ok false.
Proof. induction a as [|x a IH]; simpl; [done |]. by rewrite decide_True. Qed.

Hypothesis elt_lt_connex : ∀ x y, elt_lt x y = Ok false → x ≠ y → elt_lt y x = Ok true.

Lemma list_lt_connex (a b : list A) :
  list_lt elt_lt a b = Ok false → a ≠ b → list_lt elt_lt b a = Ok true.
Proof.
  revert b. induction a as [|x a IH]; intros [|y b]; simpl; try done.
  destruct (decide (x = y)) as [->|Hne].
  - rewrite decide_True by done. intros Hlt Hab. apply IH; congruence.
  - rewrite decide_False by congruence. intros Hlt _. by apply elt_lt_connex.
Qed.

Hypothesis elt_lt_trans :
  ∀ x y z, elt_lt x y = Ok true → elt_lt y z = Ok true → elt_lt x z = Ok true.

Lemma list_lt_trans (a b c : list A) :
  list_lt elt_lt a b = Ok true → list_lt elt_lt b c = Ok true → list_lt elt_lt a c = Ok true.
Proof.
  revert b c. induction a as [|x a IH]; intros [|y b] [|z c]; simpl; try done.
  intros Hab Hbc. repeat case_decide; simplify_eq; eauto.
  apply elt_lt_asym in Hab. congruence.
Qed.

(** Not being smaller is transitive: the relation a sorted list is sorted
    by. *)
Lemma list_not_lt_trans (a b c : list A) :
  list_lt elt_lt b a = Ok false → list_lt elt_lt c b = Ok false →
  list_lt elt_lt c a = Ok false.
Proof.
  revert b c. induction a as [|x a IH]; intros [|y b] [|z c]; simpl; try done.
  intros Hba Hcb. repeat case_decide; simplify_eq; eauto.
  apply elt_lt_connex in Hba; [congruence | done].
Qed.
End ListLtFacts.

(** ** The sort *)
Section SortFacts.
Context {A K : Type} (lt : K → K → result bool).

Lemma insert_sorted_Permutation (x : K * A) (l r : list (K * A)) :
  insert_sorted lt x l = Ok r → r ≡ₚ x :: l.
Proof.
  revert r. induction l as [|y l IH]; intros r; simpl.
  - by intros [= <-].
  - intros ([] & Hb & Hr)%bind_Ok.
    + apply bind_Ok in Hr as (r' & Hr' & [= <-]).
      rewrite (IH _ Hr'). apply Permutation_swap.
    + by injection Hr as <-.
Qed.

Lemma sort_decorated_Permutation (l s : list (K * A)) :
  sort_decorated lt l = Ok s → s ≡ₚ l.
Proof.
  revert s. induction l as [|x l IH]; intros s; simpl.
  - by intros [= <-].
  - intros (s' & Hs' & Hs)%bind_Ok.
    apply insert_sorted_Permutation in Hs. rewrite Hs. by rewrite (IH _ Hs').
Qed.

Hypothesis lt_asym : ∀ x y, lt x y = Ok true → lt y x = Ok false.

Lemma insert_sorted_HdRel (x y : K * A) (l r : list (K * A)) :
  insert_sorted lt x l = Ok r →
  not_after lt y x → HdRel (not_after lt) y l → HdRel (not_after lt) y r.
Proof.
  destruct l as [|z l]; simpl.
  - intros [= <-] ? _. by constructor.
  - intros ([] & Hb & Hr)%bind_Ok Hyx Hyz.
    + apply bind_Ok in Hr as (r' & _ & [= <-]).
      constructor. by inversion Hyz.
    + injection Hr as <-. by constructor.
Qed.

Lemma insert_sorted_Sorted (x : K * A) (l r : list (K * A)) :
  insert_sorted lt x l = Ok r → Sorted (not_after lt) l → Sorted (not_after lt) r.
Proof.
  revert r. induction l as [|y l IH]; intros r; simpl.
  - intros [= <-] _. by repeat constructor.
  - intros ([] & Hb & Hr)%bind_Ok Hs.
    + apply bind_Ok in Hr as (r' & Hr' & [= <-]).
      inversion Hs as [|? ? Hl Hy]; subst.
      constructor; [by apply IH |].
      eapply insert_sorted_HdRel; [done | | done].
      by apply lt_asym.
    + injection Hr as <-. constructor; [done |]. by constructor.
Qed.

Lemma sort_decorated_Sorted (l s : list (K * A)) :
  sort_decorated lt l = Ok s → Sorted (not_after lt) s.
Proof.
  revert s. induction l as [|x l IH]; intros s; simpl.
  - intros [= <-]. constructor.
  - intros (s' & Hs' & Hs)%bind_Ok.
    eapply insert_sorted_Sorted; [done |]. by apply IH.
Qed.

Lemma StronglySorted_related {B} (R : B → B → Prop) (s : list B) (x y : B) :
  StronglySorted R s → x ∈ s → y ∈ s → x = y ∨ R x y ∨ R y x.
Proof.
  induction 1 as [|z s _ IH Hall]; [by intros ?%elem_of_nil |].
  rewrite Forall_forall in Hall.
  intros [->|Hx]%elem_of_cons [->|Hy]%elem_of_cons; auto.
Qed.

(** A sort that returns has found [<] defined between all the keys: whether
    it raises does not depend on the comparisons it chooses to make. *)
Lemma sort_decorated_comparable (l s : list (K * A)) :
  (∀ a b c, lt b a = Ok false → lt c b = Ok false → lt c a = Ok false) →
  (∀ a, lt a a = Ok false) →
  (∀ a b, lt b a = Ok false → ∃ r, lt a b = Ok r) →
  sort_decorated lt l = Ok s →
  ∀ x y, x ∈ l → y ∈ l → ∃ r, lt x.1 y.1 = Ok r.
Proof.
  intros Htrans Hrefl Hback Hs x y Hx Hy.
  assert (StronglySorted (not_after lt) s) as Hsorted.
  { apply Sorted_StronglySorted; [| by eapply sort_decorated_Sorted].
    intros a b c Hab Hbc. by eapply Htrans. }
  apply sort_decorated_Permutation in Hs. rewrite <- Hs in Hx, Hy.
  destruct (StronglySorted_related _ _ _ _ Hsorted Hx Hy) as [->|[Hxy|Hyx]]; eauto.
Qed.

(** The sort raises nothing when [<] is defined between the keys. *)
Lemma insert_sorted_total (x : K * A) (l : list (K * A)) :
  Forall (λ y, ∃ b, lt y.1 x.1 = Ok b) l → ∃ r, insert_sorted lt x l = Ok r.
Proof.
  induction 1 as [|y l [b Hb] _ [r Hr]]; simpl; [by eexists |].
  rewrite Hb. simpl. destruct b; [| by eexists].
  rewrite Hr. by eexists.
Qed.

Lemma sort_decorated_total (P : K → Prop) (l : list (K * A)) :
  (∀ k k', P k → P k' → ∃ b, lt k k' = Ok b) →
  Forall (λ x, P x.1) l → ∃ s, sort_decorated lt l = Ok s.
Proof.
  intros HP. induction 1 as [|x l Hx Hl [s Hs]]; simpl; [by eexists |].
  rewrite Hs. simpl. apply insert_sorted_total.
  apply sort_decorated_Permutation in Hs.
  rewrite Hs. eapply Forall_impl; [exact Hl |]. intros y Hy. by apply HP.
Qed.
End SortFacts.

Lemma Sorted_weaken {A} (R R' : A → A → Prop) (l : list A) :
  (∀ a b, R a b → R' a b) → Sorted R l → Sorted R' l.
Proof.
  intros HR. induction 1 as [|x l _ IH Hhd]; constructor; [done |].
  destruct Hhd; constructor. by apply HR.
Qed.

Lemma StronglySorted_weaken {A} (R R' : A → A → Prop) (l : list A) :
  (∀ a b, R a b → R' a b) → StronglySorted R l → StronglySorted R' l.
Proof.
  intros HR. induction 1 as [|x l _ IH Hall]; constructor; [done |].
  eapply Forall_impl; [exact Hall |]. apply HR.
Qed.

Section SortedFacts.
Context {A K : Type} (lt : K → K → result bool) (key : A → result K).

Lemma decorated_keys (l : list A) (keys : list K) :
  comprehension key l = Ok keys →
  (zip keys l).*2 = l ∧ Forall (λ p, key p.2 = Ok p.1) (zip keys l).
Proof.
  intros Hk%comprehension_Ok. split.
  - apply snd_zip. by rewrite (Forall2_length _ _ _ Hk).
  - induction Hk; simpl; constructor; done.
Qed.

Lemma sorted_Permutation (descending : bool) (l s : list A) :
  sorted lt key descending l = Ok s → s ≡ₚ l.
Proof.
  unfold sorted. intros (keys & Hk & (d & Hd & [= <-])%bind_Ok)%bind_Ok.
  apply decorated_keys in Hk as [Hl _].
  transitivity ((zip keys l).*2); [| by rewrite Hl].
  apply fmap_Permutation. destruct descending.
  - apply fmap_Ok in Hd as (d' & Hd' & ->).
    apply sort_decorated_Permutation in Hd'.
    by rewrite reverse_Permutation, Hd', reverse_Permutation.
  - by apply sort_decorated_Permutation in Hd.
Qed.

Lemma Sorted_undecorate (d : list (K * A)) :
  Forall (λ p, key p.2 = Ok p.1) d →
  Sorted (not_after lt) d → Sorted (key_not_after lt key) (d.*2).
Proof.
  intros Hd Hs. induction Hs as [|p d Hs IH Hhd]; simpl; [constructor |].
  inversion Hd as [|? ? Hp Hd']; subst.
  constructor; [by apply IH |].
  destruct Hhd as [|q d Hpq]; simpl; constructor.
  inversion Hd' as [|? ? Hq _]; subst.
  by exists p.1, q.1.
Qed.

Hypothesis lt_asym : ∀ x y, lt x y = Ok true → lt y x = Ok false.

Lemma sorted_Sorted (l s : list A) :
  sorted lt key false l = Ok s → Sorted (key_not_after lt key) s.
Proof.
  unfold sorted. intros (keys & Hk & (d & Hd & [= <-])%bind_Ok)%bind_Ok.
  apply decorated_keys in Hk as [_ Hk].
  apply Sorted_undecorate.
  - apply sort_decorated_Permutation in Hd. by rewrite Hd.
  - by eapply sort_decorated_Sorted.
Qed.

Hypothesis lt_not_trans :
  ∀ a b c, lt b a = Ok false → lt c b = Ok false → lt c a = Ok false.

Lemma key_not_after_trans : Transitive (key_not_after lt key).
Proof.
  intros a b c (ka & kb & Ha & Hb & Hab) (kb' & kc & Hb' & Hc & Hbc).
  exists ka, kc. repeat split; try done.
  rewrite Hb in Hb'. injection Hb' as <-. by eapply lt_not_trans.
Qed.

Lemma sorted_StronglySorted (l s : list A) :
  sorted lt key false l = Ok s → StronglySorted (key_not_after lt key) s.
Proof.
  intros Hs. apply Sorted_StronglySorted; [apply key_not_after_trans |].
  by eapply sorted_Sorted.
Qed.

Lemma sorted_comparable (l s : list A) :
  (∀ a, lt a a = Ok false) →
  (∀ a b, lt b a = Ok false → ∃ r, lt a b = Ok r) →
  sorted lt key false l = Ok s →
  ∀ a b, a ∈ l → b ∈ l → ∃ ka kb r, key a = Ok ka ∧ key b = Ok kb ∧ lt ka kb = Ok r.
Proof.
  intros Hrefl Hback. unfold sorted.
  intros (keys & Hk & (d & Hd & _)%bind_Ok)%bind_Ok a b Ha Hb.
  apply decorated_keys in Hk as [Hl Hk]. rewrite Forall_forall in Hk.
  rewrite <- Hl in Ha, Hb.
  apply list_elem_of_fmap in Ha as (p & -> & Hp), Hb as (q & -> & Hq).
  destruct (sort_decorated_comparable lt lt_asym _ _ lt_not_trans Hrefl Hback Hd p q Hp Hq)
    as [r Hr].
  exists p.1, q.1, r. auto.
Qed.

Lemma sorted_total (P : K → Prop) (descending : bool) (l : list A) :
  (∀ k k', P k → P k' → ∃ b, lt k k' = Ok b) →
  Forall (λ x, ∃ k, key x = Ok k ∧ P k) l →
  ∃ s, sorted lt key descending l = Ok s.
Proof.
  intros HP Hl. unfold sorted.
  destruct (comprehension_total key l) as [keys Hk].
  { eapply Forall_impl; [exact Hl |]. intros x (k & ? & _). by exists k. }
  rewrite Hk. simpl.
  assert (Forall (λ p : K * A, P p.1) (zip keys l)) as Hz.
  { apply comprehension_Ok in Hk. clear -Hk Hl.
    induction Hk as [|x k l keys Hx _ IH]; simpl; [constructor |].
    inversion Hl as [|? ? (k' & Hk' & HPk) Hl']; subst.
    constructor; [| by apply IH].
    simpl. congruence. }
  destruct descending.
  - destruct (sort_decorated_total lt P (reverse (zip keys l)) HP) as [s Hs].
    { by rewrite reverse_Permutation. }
    rewrite Hs. simpl. by eexists.
  - destruct (sort_decorated_total lt P (zip keys l) HP Hz) as [s Hs].
    rewrite Hs. simpl. by eexists.
Qed.
End SortedFacts.

(** ** What a sort raises, and the descending sort *)
Lemma comprehension_Raise {A B} (f : A → result B) (l : list A) (e : exn) :
  comprehension f l = Raise e → ∃ x, x ∈ l ∧ f x = Raise e.
Proof.
  induction l as [|x l IH]; simpl; [done |].
  destruct (f x) as [y|e'] eqn:Hx; simpl.
  - destruct (comprehension f l) as [ys|e'] eqn:Hl; simpl; [done |].
    intros [= ->]. destruct IH as (z & Hz & Hfz); [done |].
    exists z. split; [by right | done].
  - intros [= ->]. exists x. split; [by left | done].
Qed.

Section SortRaises.
Context {A K : Type} (lt : K → K → result bool).

Lemma insert_sorted_Raise (x : K * A) (l : list (K * A)) (e : exn) :
  insert_sorted lt x l = Raise e → ∃ y, y ∈ l ∧ lt y.1 x.1 = Raise e.
Proof.
  induction l as [|y l IH]; simpl; [done |].
  destruct (lt y.1 x.1) as [[]|e'] eqn:Hlt; simpl.
  - destruct (insert_sorted lt x l) as [r|e'] eqn:Hins; simpl; [done |].
    intros [= ->]. destruct IH as (z & Hz & Hzx); [done |].
    exists z. split; [by right | done].
  - done.
  - intros [= ->]. exists y. split; [by left | done].
Qed.

Lemma sort_decorated_Raise (l : list (K * A)) (e : exn) :
  sort_decorated lt l = Raise e → ∃ x y, x ∈ l ∧ y ∈ l ∧ lt x.1 y.1 = Raise e.
Proof.
  induction l as [|x l IH]; simpl; [done |].
  destruct (sort_decorated lt l) as [s|e'] eqn:Hs; simpl.
  - intros (y & Hy & Hlt)%insert_sorted_Raise.
    apply sort_decorated_Permutation in Hs. rewrite Hs in Hy.
    exists y, x. split; [by right |]. split; [by left | done].
  - intros [= ->]. destruct IH as (y & z & Hy & Hz & Hlt); [done |].
    exists y, z. split; [by right |]. split; [by right | done].
Qed.
End SortRaises.

Lemma sorted_Raise {A K} (lt : K → K → result bool) (key : A → result K)
    (descending : bool) (l : list A) (e : exn) :
  sorted lt key descending l = Raise e →
  (∃ x, x ∈ l ∧ key x = Raise e) ∨ (∃ kx ky, lt kx ky = Raise e).
Proof.
  unfold sorted. destruct (comprehension key l) as [keys|e'] eqn:Hkeys; simpl.
  - intros Hsort. right.
    destruct descending.
    + destruct (sort_decorated lt (reverse (zip keys l))) as [d|e'] eqn:Hd; [done |].
      injection Hsort as ->.
      apply sort_decorated_Raise in Hd as (x & y & _ & _ & Hlt). eauto.
    + destruct (sort_decorated lt (zip keys l)) as [d|e'] eqn:Hd; [done |].
      injection Hsort as ->.
      apply sort_decorated_Raise in Hd as (x & y & _ & _ & Hlt). eauto.
  - intros [= ->]. left. by apply comprehension_Raise.
Qed.

Section DescendingFacts.
Context {A K : Type} (lt : K → K → result bool) (key : A → result K).
Hypothesis lt_asym : ∀ x y, lt x y = Ok true → lt y x = Ok false.
Hypothesis lt_not_trans :
  ∀ a b c, lt b a = Ok false → lt c b = Ok false → lt c a = Ok false.
Hypothesis lt_refl : ∀ a, lt a a = Ok false.
Hypothesis lt_back : ∀ a b, lt b a = Ok false → ∃ r, lt a b = Ok r.

Lemma Sorted_undecorate_flip (d : list (K * A)) :
  Forall (λ p, key p.2 = Ok p.1) d →
  Sorted (flip (not_after lt)) d → Sorted (flip (key_not_after lt key)) (d.*2).
Proof.
  intros Hd Hs. induction Hs as [|p d Hs IH Hhd]; simpl; [constructor |].
  inversion Hd as [|? ? Hp Hd']; subst.
  constructor; [by apply IH |].
  destruct Hhd as [|q d Hpq]; simpl; constructor.
  inversion Hd' as [|? ? Hq _]; subst.
  by exists q.1, p.1.
Qed.

Lemma sorted_descending_StronglySorted (l s : list A) :
  sorted lt key true l = Ok s → StronglySorted (flip (key_not_after lt key)) s.
Proof.
  unfold sorted. intros (keys & Hk & (d & Hd & [= <-])%bind_Ok)%bind_Ok.
  apply fmap_Ok in Hd as (d' & Hd' & ->).
  apply decorated_keys in Hk as [_ Hk].
  apply Sorted_StronglySorted.
  { intros a b c Hab Hbc. by apply (key_not_after_trans lt key lt_not_trans c b a). }
  apply Sorted_undecorate_flip.
  - apply sort_decorated_Permutation in Hd'.
    by rewrite reverse_Permutation, Hd', reverse_Permutation.
  - apply Sorted_reverse. by eapply sort_decorated_Sorted.
Qed.

Lemma sorted_comparable_any (descending : bool) (l s : list A) :
  sorted lt key descending l = Ok s →
  ∀ a b, a ∈ l → b ∈ l → ∃ ka kb r, key a = Ok ka ∧ key b = Ok kb ∧ lt ka kb = Ok r.
Proof.
  destruct descending; [| by apply sorted_comparable].
  unfold sorted. intros (keys & Hk & (d & Hd & _)%bind_Ok)%bind_Ok a b Ha Hb.
  apply fmap_Ok in Hd as (d' & Hd' & _).
  apply decorated_keys in Hk as [Hl Hk]. rewrite Forall_forall in Hk.
  rewrite <- Hl in Ha, Hb.
  apply list_elem_of_fmap in Ha as (p & -> & Hp), Hb as (q & -> & Hq).
  destruct (sort_decorated_comparable lt lt_asym _ _ lt_not_trans lt_refl lt_back Hd' p q)
    as [r Hr]; [by apply elem_of_reverse.. |].
  exists p.1, q.1, r. auto.
Qed.

Lemma sorted_either (descending descending' : bool) (l s : list A) :
  sorted lt key descending l = Ok s → ∃ s', sorted lt key descending' l = Ok s'.
Proof.
  intros Hs.
  apply (sorted_total lt key (λ k, ∃ x, x ∈ l ∧ key x = Ok k)).
  - intros k k' (x & Hx & Hkx) (y & Hy & Hky).
    destruct (sorted_comparable_any _ _ _ Hs x y Hx Hy) as (ka & kb & r & Ha & Hb & Hr).
    exists r. congruence.
  - apply Forall_forall. intros x Hx.
    destruct (sorted_comparable_any _ _ _ Hs x x Hx Hx) as (k & _ & _ & Hk & _ & _).
    exists k. split; [done |]. by exists x.
Qed.
End DescendingFacts.

(** ** Keys of column names *)
Section KeyFacts.
Import functions.

Lemma char_lt_asym (c d : N) : char_lt c d = Ok true → char_lt d c = Ok false.
Proof. unfold char_lt. intros [= Hlt]. f_equal. apply N.ltb_lt in Hlt. apply N.ltb_ge. lia. Qed.

Lemma str_lt_asym (s t : pystr) : str_lt s t = Ok true → str_lt t s = Ok false.
Proof. apply list_lt_asym, char_lt_asym. Qed.

Lemma char_lt_connex (c d : N) : char_lt c d = Ok false → c ≠ d → char_lt d c = Ok true.
Proof. unfold char_lt. intros [= Hlt] Hne. f_equal. apply N.ltb_ge in Hlt. apply N.ltb_lt. lia. Qed.

Lemma char_lt_trans (c d e : N) :
  char_lt c d = Ok true → char_lt d e = Ok true → char_lt c e = Ok true.
Proof.
  unfold char_lt. intros [= H1%N.ltb_lt] [= H2%N.ltb_lt]. f_equal. apply N.ltb_lt. lia.
Qed.

Lemma str_lt_connex (s t : pystr) : str_lt s t = Ok false → s ≠ t → str_lt t s = Ok true.
Proof. apply list_lt_connex, char_lt_connex. Qed.

Lemma str_lt_trans (s t u : pystr) :
  str_lt s t = Ok true → str_lt t u = Ok true → str_lt s u = Ok true.
Proof.
  apply list_lt_trans; [apply char_lt_asym | apply char_lt_connex | apply char_lt_trans].
Qed.

Lemma str_lt_total (s t : pystr) : ∃ b, str_lt s t = Ok b.
Proof.
  unfold str_lt. revert t. induction s as [|c s IH]; intros [|d t]; simpl; eauto.
  destruct (decide (c = d)); [apply IH | by eexists].
Qed.

Lemma token_lt_asym (x y : token) : token_lt x y = Ok true → token_lt y x = Ok false.
Proof.
  destruct x as [m|s], y as [n|t]; simpl; try done.
  - intros [= Hlt]. f_equal. lia.
  - apply str_lt_asym.
Qed.

Lemma token_lt_connex (x y : token) :
  token_lt x y = Ok false → x ≠ y → token_lt y x = Ok true.
Proof.
  destruct x as [m|s], y as [n|t]; simpl; try done.
  - intros [= Hlt] Hne. f_equal. apply Z.ltb_ge in Hlt. apply Z.ltb_lt.
    assert (m ≠ n) by congruence. lia.
  - intros Hlt Hne. apply str_lt_connex; congruence.
Qed.

Lemma token_lt_trans (x y z : token) :
  token_lt x y = Ok true → token_lt y z = Ok true → token_lt x z = Ok true.
Proof.
  destruct x as [m|s], y as [n|t], z as [o|u]; simpl; try done.
  - intros [= H1%Z.ltb_lt] [= H2%Z.ltb_lt]. f_equal. apply Z.ltb_lt. lia.
  - apply str_lt_trans.
Qed.

Lemma key_not_lt_trans (a b c : list token) :
  key_lt b a = Ok false → key_lt c b = Ok false → key_lt c a = Ok false.
Proof.
  apply list_not_lt_trans; [apply token_lt_asym | apply token_lt_connex | apply token_lt_trans].
Qed.

Lemma key_lt_asym (a b : list token) : key_lt a b = Ok true → key_lt b a = Ok false.
Proof. apply list_lt_asym, token_lt_asym. Qed.

Lemma key_lt_back (a b : list token) : key_lt b a = Ok false → ∃ r, key_lt a b = Ok r.
Proof.
  intros Hba. destruct (decide (b = a)) as [->|Hne]; [by eexists |].
  exists true. by apply list_lt_connex; [apply token_lt_connex | |].
Qed.

Lemma key_lt_Raise (a b : list token) (e : exn) : key_lt a b = Raise e → e = TypeError.
Proof.
  unfold key_lt. revert b. induction a as [|x a IH]; intros [|y b]; simpl; try done.
  destruct (decide (x = y)) as [Heq|Hne]; [apply IH |].
  destruct x as [m|s], y as [n|t]; simpl; try by intros [= <-].
  by destruct (str_lt_total s t) as [r ->].
Qed.

Lemma key_lt_total (text : bool) (a b : list token) :
  alternating text a → alternating text b → ∃ r, key_lt a b = Ok r.
Proof.
  unfold key_lt. revert text b.
  induction a as [|x a IH]; intros text [|y b]; simpl; eauto.
  intros Ha Hb. destruct (decide (x = y)) as [<-|Hne].
  - destruct x; destruct Ha as [_ Ha], Hb as [_ Hb]; eauto.
  - destruct x, y; simpl; destruct Ha as [-> _], Hb as [? _];
      try done; eauto using str_lt_total.
Qed.

Lemma unicode_decimal_ascii_digit (c : N) :
  is_ascii_digit c = true → unicode_decimal c = Some (Z.of_N (c - 48)).
Proof. unfold is_ascii_digit, unicode_decimal. by intros ->. Qed.

Lemma unicode_digit_ascii (c : N) : c < 128 → unicode_digit c = is_ascii_digit c.
Proof.
  intros Hc. unfold unicode_digit, unicode_decimal, is_ascii_digit.
  destruct ((48 <=? c) && (c <=? 57)); [done |].
  replace (0x660 <=? c) with false by (symmetry; apply N.leb_gt; lia).
  replace (0x6F0 <=? c) with false by (symmetry; apply N.leb_gt; lia).
  simpl.
  replace (c =? 0xB2) with false by (symmetry; apply N.eqb_neq; lia).
  replace (c =? 0xB3) with false by (symmetry; apply N.eqb_neq; lia).
  replace (c =? 0xB9) with false by (symmetry; apply N.eqb_neq; lia).
  done.
Qed.

Lemma convert_text (p : pystr) :
  Forall (λ c, c < 128 ∧ is_ascii_digit c = false) p → convert p = Ok (TStr (upper p)).
Proof.
  intros Hp. unfold convert.
  destruct p as [|c p]; [done |].
  inversion Hp as [|? ? [Hc Hd] _]; subst. simpl.
  by rewrite unicode_digit_ascii, Hd.
Qed.

Lemma convert_digits (p : pystr) :
  p ≠ [] → Forall (λ c, is_ascii_digit c = true) p →
  (isdigit p = true → (Z.of_nat (length p) ≤ int_max_str_digits)%Z) →
  ∃ n, convert p = Ok (TInt n).
Proof.
  intros Hne Hp Hlimit. unfold convert.
  assert (mapM unicode_decimal p = Some ((λ c, Z.of_N (c - 48)) <$> p)) as Hm.
  { apply mapM_Some. clear Hne Hlimit. induction Hp; simpl; constructor;
      auto using unicode_decimal_ascii_digit. }
  assert (isdigit p = true) as Hdigit.
  { destruct p as [|c p]; [done |]. unfold isdigit.
    apply List.forallb_forall. intros d Hd%list_elem_of_In.
    rewrite Forall_forall in Hp. unfold unicode_digit.
    by rewrite (unicode_decimal_ascii_digit d (Hp d Hd)). }
  rewrite Hdigit. unfold int. rewrite Hm. destruct p as [|c p]; [done |].
  rewrite fmap_cons. rewrite (proj2 (Z.ltb_ge _ _)) by auto. simpl. by eexists.
Qed.

Lemma re_split_from_alternate (data cur : pystr) (in_run : bool) :
  ascii_name data →
  (if in_run then cur ≠ [] ∧ Forall (λ c, is_ascii_digit c = true) cur
   else Forall (λ c, c < 128 ∧ is_ascii_digit c = false) cur) →
  pieces_alternate (negb in_run) (re_split_from cur in_run data).
Proof.
  intros Hdata. revert cur in_run.
  induction Hdata as [|c data Hc _ IH]; intros cur in_run Hcur; simpl.
  - destruct in_run; simpl; [| done]. repeat split; try apply Hcur. constructor.
  - destruct (is_ascii_digit c) eqn:Hd, in_run; simpl.
    + apply (IH _ true). destruct Hcur as [_ Hcur]. split.
      * by destruct cur.
      * apply Forall_app. split; [done |]. by repeat constructor.
    + split; [done |]. apply (IH _ true). split; [done |]. by repeat constructor.
    + split; [done |]. apply (IH _ false). by repeat constructor.
    + apply (IH _ false). apply Forall_app. split; [done |]. by repeat constructor.
Qed.

Lemma comprehension_convert_alternating (text : bool) (pieces : list pystr) :
  pieces_alternate text pieces →
  Forall (λ piece, isdigit piece = true → (Z.of_nat (length piece) ≤ int_max_str_digits)%Z)
    pieces →
  ∃ k, comprehension convert pieces = Ok k ∧ alternating text k.
Proof.
  intros Hpieces Hlimit. revert text Hpieces.
  induction Hlimit as [|p pieces Hlimit _ IH]; intros text; simpl.
  - by eexists.
  - intros [Hp Hps]. destruct (IH _ Hps) as (k & Hk & Halt).
    rewrite Hk. destruct text.
    + rewrite (convert_text p Hp). simpl. eexists. split; [done |]. by split.
    + destruct Hp as [Hne Hp]. destruct (convert_digits p Hne Hp Hlimit) as [n ->].
      simpl. eexists. split; [done |]. by split.
Qed.

Lemma alphanum_key_ascii (data : pystr) :
  ascii_name data → digit_runs_within_limit data →
  ∃ k, alphanum_key data = Ok k ∧ alternating true k.
Proof.
  intros Hdata Hlimit. apply comprehension_convert_alternating; [| exact Hlimit].
  apply (re_split_from_alternate data [] false Hdata). constructor.
Qed.

Lemma sort_alphanumeric_ascii_total (strings : list pystr) (descending : bool) :
  Forall ascii_name strings → Forall digit_runs_within_limit strings →
  ∃ s, sort_alphanumeric strings descending = Ok s.
Proof.
  intros Hs Hlimit. apply (sorted_total _ _ (alternating true)).
  - intros k k'. apply key_lt_total.
  - apply Forall_forall. intros data Hdata. rewrite Forall_forall in Hs, Hlimit.
    by apply alphanum_key_ascii; [apply Hs | apply Hlimit].
Qed.
End KeyFacts.

(** ** The unified schema *)
Section SchemaFacts.
Import functions data_clients.

Lemma gather_file_headers (file_headers : list pystr) (set_headers : gset pystr) :
  fold_left
    (λ set_headers (header : pystr),
       if decide (header ∈ set_headers) then set_headers else set_headers ∪ {[ header ]})
    file_headers set_headers
  = set_headers ∪ list_to_set file_headers.
Proof.
  revert set_headers. induction file_headers as [|h l IH]; intros s; simpl.
  - by rewrite (right_id_L ∅ (∪)).
  - rewrite IH. destruct (decide (h ∈ s)) as [Hin|Hin].
    + apply set_eq. intros x. rewrite !elem_of_union, elem_of_singleton.
      intuition (subst; auto).
    + by rewrite (assoc_L (∪)).
Qed.

Lemma gather_headers_union (first : list pystr) (others : list (list pystr)) :
  gather_headers first others = ⋃ (list_to_set <$> first :: others).
Proof.
  unfold gather_headers. simpl.
  generalize (list_to_set first : gset pystr) as s.
  induction others as [|l others IH]; intros s; simpl.
  - by rewrite (right_id_L ∅ (∪)).
  - by rewrite gather_file_headers, IH, (assoc_L (∪)).
Qed.

Lemma elem_of_union_headers (hs : list (list pystr)) (h : pystr) :
  h ∈ (⋃ (list_to_set <$> hs) : gset pystr) ↔ ∃ fh, fh ∈ hs ∧ h ∈ fh.
Proof.
  rewrite elem_of_union_list. split.
  - intros (X & (fh & -> & Hfh)%list_elem_of_fmap & Hh). exists fh.
    split; [done |]. by apply elem_of_list_to_set in Hh.
  - intros (fh & Hfh & Hh). exists (list_to_set fh).
    split; [| by apply elem_of_list_to_set].
    apply list_elem_of_fmap. eauto.
Qed.

Context `{SetOrder}.

Lemma sort_headers_Ok (self self' : ProcessData) :
  sort_headers self = Ok self' →
  sort_alphanumeric (set_to_list (⋃ (list_to_set <$> _headers_by_file self))) false
    = Ok (headers self').
Proof.
  unfold sort_headers. destruct (_headers_by_file self) as [|first others]; [done |].
  rewrite gather_headers_union. intros (hs & Hhs & [= <-])%bind_Ok. done.
Qed.
End SchemaFacts.

(** ** The merge engine *)
Section EngineFacts.
Import functions data_clients.

Lemma cell_lt_asym (x y : option pystr) : cell_lt x y = Ok true → cell_lt y x = Ok false.
Proof. destruct x, y; simpl; try done. apply str_lt_asym. Qed.

Lemma record_lt_asym (a b : record) : record_lt a b = Ok true → record_lt b a = Ok false.
Proof. apply list_lt_asym, cell_lt_asym. Qed.

Lemma cell_lt_connex (x y : option pystr) :
  cell_lt x y = Ok false → x ≠ y → cell_lt y x = Ok true.
Proof.
  destruct x, y; simpl; try done. intros Hlt Hne. apply str_lt_connex; congruence.
Qed.

Lemma cell_lt_trans (x y z : option pystr) :
  cell_lt x y = Ok true → cell_lt y z = Ok true → cell_lt x z = Ok true.
Proof. destruct x, y, z; simpl; try done. apply str_lt_trans. Qed.

Lemma record_not_lt_trans (a b c : record) :
  record_lt b a = Ok false → record_lt c b = Ok false → record_lt c a = Ok false.
Proof.
  apply list_not_lt_trans; [apply cell_lt_asym | apply cell_lt_connex | apply cell_lt_trans].
Qed.

Lemma sort_records_Permutation (n : nat) (sorting batch : list record) :
  sort_records n sorting = Ok batch → batch ≡ₚ sorting.
Proof. apply sorted_Permutation. Qed.

Lemma sort_records_sorted (n : nat) (sorting batch : list record) :
  sort_records n sorting = Ok batch → sorted_by_columns n batch.
Proof.
  intros Hs%sorted_StronglySorted; [| apply record_lt_asym | apply record_not_lt_trans].
  unfold sorted_by_columns. eapply StronglySorted_weaken; [| exact Hs].
  by intros a b (ka & kb & [= <-] & [= <-] & Hlt).
Qed.

(** Sorting the buffer returns exactly when [<] is defined between the keys
    of all its records. *)
Lemma sort_records_returns (n : nat) (sorting : list record) :
  (∃ batch, sort_records n sorting = Ok batch) ↔
  ∀ a b, a ∈ sorting → b ∈ sorting → ∃ r, record_lt (take n a) (take n b) = Ok r.
Proof.
  split.
  - intros [batch Hsort] a b Ha Hb.
    destruct (sorted_comparable record_lt (λ data, Ok (take n data))
                record_lt_asym record_not_lt_trans sorting batch)
      with (a := a) (b := b) as (ka & kb & r & [= <-] & [= <-] & Hr); try done.
    + apply list_lt_refl.
    + intros x y Hyx. destruct (decide (x = y)) as [->|Hne]; [by eexists |].
      exists true. apply list_lt_connex; [apply cell_lt_connex | done | done].
    + by exists r.
  - intros Hall. apply (sorted_total _ _ (λ k, ∃ a, a ∈ sorting ∧ k = take n a)).
    + intros k k' (a & Ha & ->) (b & Hb & ->). by apply Hall.
    + apply Forall_forall. intros a Ha. exists (take n a). eauto.
Qed.

Lemma collect_app (self : ProcessData) (index : nat) (data_tuple : list (option (list pystr)))
    (sorting : list record) :
  collect self index data_tuple sorting
  = (λ out, sorting ++ out) <$> collect self index data_tuple [].
Proof.
  revert index sorting. induction data_tuple as [|data data_tuple IH]; intros index sorting.
  - simpl. by rewrite app_nil_r.
  - simpl. destruct data as [data|]; simpl; [| apply IH].
    destruct (subscript (_file_names self) index) as [file_name|]; simpl; [| done].
    destruct (item _ file_name) as [entry|]; simpl; [| done].
    set (ordered := if rearrangement_needed entry then _ else _).
    destruct ordered as [data'|]; simpl; [| done].
    destruct (complete_record self data' index) as [completed|]; simpl; [| done].
    rewrite (IH _ (sorting ++ [completed])), (IH _ [completed]).
    destruct (collect self (S index) data_tuple []); simpl; [| done].
    by rewrite <- app_assoc.
Qed.

Lemma default_writer :
  WriteData_init default_base_directory default_file_name default_extension
  = ([], Ok {| directory := str "../data/result/";
               _file_generator := Some {| file_generators.generator := file_generators.TSVFileGenerator;
                                          file_generators.file := default_file |} |}).
Proof. reflexivity. Qed.

Lemma process_round_keep (self : ProcessData) (sorting : list record) (partial_write : bool)
    (data_tuple : list (option (list pystr))) :
  (Z.of_nat (length sorting) ≤ 52000)%Z →
  process_round self (sorting, partial_write) data_tuple
  = ([], (λ out, (sorting ++ out, partial_write)) <$> collect self 0 data_tuple []).
Proof.
  intros Hlen. unfold process_round.
  replace (52000 <? Z.of_nat (length sorting))%Z with false by (symmetry; apply Z.ltb_ge; lia).
  unfold mbind, io_bind, lift; simpl.
  rewrite (collect_app _ _ _ sorting). by destruct (collect self 0 data_tuple []).
Qed.

Lemma process_round_flush (self : ProcessData) (sorting : list record) (partial_write : bool)
    (data_tuple : list (option (list pystr))) :
  (52000 < Z.of_nat (length sorting))%Z →
  process_round self (sorting, partial_write) data_tuple
  = match sort_records 2 sorting with
    | Ok batch =>
        (flush_events self batch, (λ out, (out, true)) <$> collect self 0 data_tuple [])
    | Raise e => ([], Raise e)
    end.
Proof.
  intros Hlen. unfold process_round.
  replace (52000 <? Z.of_nat (length sorting))%Z with true by (symmetry; apply Z.ltb_lt; lia).
  rewrite default_writer. unfold mbind, io_bind, lift; simpl.
  destruct (sort_records 2 sorting) as [batch|e]; simpl; [| done].
  by destruct (collect self 0 data_tuple []).
Qed.
End EngineFacts.

(** ** Runs of the engine *)
Lemma io_bind_Ok {A B} (m : io A) (f : A → io B) (events : list event) (b : B) :
  m ≫= f = (events, Ok b) →
  ∃ events1 a events2,
    m = (events1, Ok a) ∧ f a = (events2, Ok b) ∧ events = events1 ++ events2.
Proof.
  destruct m as [events1 [a|e]]; unfold mbind, io_bind; simpl; [| done].
  destruct (f a) as [events2 r] eqn:Hf. simpl. intros [= <- ->].
  by exists events1, a, events2.
Qed.

Lemma grouped_concat (buffer : list record) (outs chunks : list (list record)) :
  grouped buffer outs chunks → concat chunks = buffer ++ concat outs.
Proof.
  intros (first & groups & -> & ->). simpl.
  rewrite concat_app, <- !app_assoc. do 2 f_equal.
  induction groups as [|g groups IH]; simpl; [done |].
  rewrite concat_app. f_equal. exact IH.
Qed.

Section RunFacts.
Import functions data_clients.

Lemma run_rounds (self : ProcessData) (rnds : list (list (option (list pystr))))
    (buffer : list record) (flag : bool) (events : list event)
    (buffer' : list record) (flag' : bool) :
  for_each (process_round self) rnds (buffer, flag) = (events, Ok (buffer', flag')) →
  ∃ outs unsorted batches,
    Forall2 (λ data_tuple out, collect self 0 data_tuple [] = Ok out) rnds outs ∧
    grouped buffer outs (unsorted ++ [buffer']) ∧
    Forall2 flushed unsorted batches ∧
    events = concat (flush_events self <$> batches) ∧
    flag' = flag || bool_decide (batches ≠ []).
Proof.
  revert buffer flag events.
  induction rnds as [|data_tuple rnds IH]; intros buffer flag events; cbn [for_each].
  - intros [= <- <- <-]. exists [], [], []. repeat split; try constructor.
    + exists [], []. simpl. by rewrite app_nil_r.
    + by rewrite orb_false_r.
  - intros (events1 & [buffer1 flag1] & events2 & Hround & Hrest & ->)%io_bind_Ok.
    apply IH in Hrest as (outs & unsorted & batches & Houts & Hgr & Hfl & -> & ->).
    destruct (Z.le_gt_cases (Z.of_nat (length buffer)) 52000) as [Hlen|Hlen].
    + rewrite process_round_keep in Hround by done.
      injection Hround as <- Hround.
      apply fmap_Ok in Hround as (out & Hout & [= -> ->]).
      exists (out :: outs), unsorted, batches. repeat split; try done.
      * by constructor.
      * destruct Hgr as (first & groups & -> & Hchunks).
        exists (out :: first), groups. split; [done |].
        rewrite Hchunks. simpl. by rewrite app_assoc.
    + rewrite process_round_flush in Hround by lia.
      destruct (sort_records 2 buffer) as [batch|] eqn:Hsort; [| done].
      injection Hround as <- Hround.
      apply fmap_Ok in Hround as (out & Hout & [= -> ->]).
      exists (out :: outs), (buffer :: unsorted), (batch :: batches).
      repeat split; try done.
      * by constructor.
      * destruct Hgr as (first & groups & -> & Hchunks).
        exists [], ((out :: first) :: groups). split; [done |].
        simpl. rewrite app_nil_r. f_equal. exact Hchunks.
      * constructor; [| done]. split; [lia | done].
      * by rewrite orb_true_r.
Qed.
End RunFacts.

Lemma lift_Ok {A} (r : result A) (events : list event) (a : A) :
  lift r = (events, Ok a) → events = [] ∧ r = Ok a.
Proof. unfold lift. by intros [= <- ->]. Qed.

Section ProcessDataFacts.
Import functions data_clients.

(** The rounds of [zip_longest]: as many as the longest iterator has
    elements; round [r] holds, for every iterator in order, its element
    [r] or [None] once it is exhausted. *)
Lemma rounds_length {A} (n : nat) (iterators : list (list A)) :
  length (rounds n iterators) = n.
Proof. revert iterators. induction n as [|n IH]; intros its; simpl; [done |]. by rewrite IH. Qed.

Lemma rounds_lookup {A} (n r : nat) (iterators : list (list A)) :
  (r < n)%nat → rounds n iterators !! r = Some ((λ it, it !! r) <$> iterators).
Proof.
  revert r iterators. induction n as [|n IH]; intros r its Hr; [lia |].
  destruct r as [|r]; simpl.
  - f_equal. apply list_fmap_ext. intros _ it _. by destruct it.
  - rewrite IH by lia. f_equal. rewrite <- list_fmap_compose.
    apply list_fmap_ext. intros _ it _. by destruct it.
Qed.

Lemma zip_longest_all_lookup {A} (r : nat) (iterators : list (list A)) :
  (r < max_list (length <$> iterators))%nat →
  zip_longest_all iterators !! r = Some ((λ it, it !! r) <$> iterators).
Proof. apply rounds_lookup. Qed.

(** Every element of every iterator is taken in one round, once. *)
Lemma heads_tails {A} (iterators : list (list A)) :
  concat iterators ≡ₚ taken (head <$> iterators) ++ concat (tail <$> iterators).
Proof.
  unfold taken. induction iterators as [|[|x it] iterators IH]; csimpl; [done | done |].
  rewrite IH. by rewrite Permutation_app_swap_app.
Qed.

Lemma rounds_keep {A} (n : nat) (iterators : list (list A)) :
  (max_list (length <$> iterators) ≤ n)%nat →
  concat (taken <$> rounds n iterators) ≡ₚ concat iterators.
Proof.
  revert iterators. induction n as [|n IH]; intros its Hn; csimpl.
  - assert (Forall (λ it, it = []) its) as Hempty.
    { apply Forall_forall. intros it Hit. apply length_zero_iff_nil.
      assert (length it ≤ max_list (length <$> its))%nat; [| lia].
      apply max_list_elem_of_le, list_elem_of_fmap. eauto. }
    clear Hn. induction Hempty as [|it its -> _ IH]; by simpl.
  - rewrite IH, <- heads_tails; [done |].
    clear IH. induction its as [|it its IH]; csimpl in *; [lia |].
    destruct it; simpl in *; lia.
Qed.

Lemma zip_longest_all_keep {A} (iterators : list (list A)) :
  concat (taken <$> zip_longest_all iterators) ≡ₚ concat iterators.
Proof. by apply rounds_keep. Qed.

(** A round that returns gives one record for every record it took. *)
Lemma collect_length (self : ProcessData) (index : nat)
    (data_tuple : list (option (list pystr))) (out : list record) :
  collect self index data_tuple [] = Ok out → length out = length (taken data_tuple).
Proof.
  unfold taken. revert index out.
  induction data_tuple as [|data data_tuple IH]; intros index out.
  - by intros [= <-].
  - cbn [collect]. destruct data as [data|]; csimpl; [| apply IH].
    intros (one & Hone & Hout)%bind_Ok.
    apply bind_Ok in Hone as (? & _ & (? & _ & (? & _ & (completed & _ & [= <-])%bind_Ok
      )%bind_Ok)%bind_Ok).
    rewrite collect_app in Hout. apply fmap_Ok in Hout as (out' & Hout' & ->).
    simpl. f_equal. by eapply IH.
Qed.

Lemma process_data_Ok (d : file_readers.disk) (self self' : ProcessData)
    (events : list event) (flag : bool) (final : list record) :
  process_data d self = (events, Ok (self', (flag, final))) →
  ∃ prints data_generators iterators outs unsorted batches last,
    get_data_generators d self = (prints, Ok data_generators) ∧
    make_file_processing_data self = Ok self' ∧
    comprehension (λ data_generator, data_generator) data_generators = Ok iterators ∧
    Forall2 (λ data_tuple out, collect self' 0 data_tuple [] = Ok out)
      (zip_longest_all iterators) outs ∧
    grouped [] outs (unsorted ++ [last]) ∧
    Forall2 flushed unsorted batches ∧
    events = prints ++ concat (flush_events self' <$> batches) ∧
    flag = bool_decide (batches ≠ []) ∧
    sort_records 3 last = Ok final.
Proof.
  unfold process_data.
  intros (prints & gens & events1 & Hgens & Hrest & ->)%io_bind_Ok.
  apply io_bind_Ok in Hrest as (? & self1 & events2 & [-> Hself]%lift_Ok & Hrest & ->).
  apply io_bind_Ok in Hrest as (? & its & events3 & [-> Hits]%lift_Ok & Hrest & ->).
  apply io_bind_Ok in Hrest as (events4 & [last flag1] & events5 & Hrun & Hrest & ->).
  apply io_bind_Ok in Hrest as (? & final1 & ? & [-> Hsort]%lift_Ok & [= <- <- <- <-] & ->).
  apply run_rounds in Hrun as (outs & unsorted & batches & Houts & Hgr & Hfl & -> & ->).
  exists prints, gens, its, outs, unsorted, batches, last.
  repeat split; try done. simpl. by rewrite !app_nil_r.
Qed.

(** No record is lost or repeated between the rounds and the batches: the
    flushed batches and the final batch hold, reordered, what the rounds
    put in the buffer. *)
Lemma process_data_keeps_records (d : file_readers.disk) (self self' : ProcessData)
    (events : list event) (flag : bool) (final : list record) :
  process_data d self = (events, Ok (self', (flag, final))) →
  ∃ data_generators iterators outs batches,
    (get_data_generators d self).2 = Ok data_generators ∧
    comprehension (λ data_generator, data_generator) data_generators = Ok iterators ∧
    Forall2 (λ data_tuple out, collect self' 0 data_tuple [] = Ok out)
      (zip_longest_all iterators) outs ∧
    events = (get_data_generators d self).1 ++ concat (flush_events self' <$> batches) ∧
    concat batches ++ final ≡ₚ concat outs ∧
    length (concat batches ++ final) = length (concat iterators).
Proof.
  intros (prints & gens & its & outs & unsorted & batches & last
          & Hgens & _ & Hits & Houts & Hgr & Hfl & -> & _ & Hsort)%process_data_Ok.
  exists gens, its, outs, batches. rewrite Hgens.
  assert (concat batches ++ final ≡ₚ concat outs) as Hkeep; last first.
  { repeat split; try done. rewrite Hkeep, <- (zip_longest_all_keep its).
    clear -Houts. induction Houts as [|data_tuple out ? ? Hout _ IH]; simpl; [done |].
    rewrite !length_app, IH. f_equal. by eapply collect_length. }
  apply grouped_concat in Hgr. simpl in Hgr. rewrite <- Hgr, concat_app. simpl.
  rewrite app_nil_r. apply sort_records_Permutation in Hsort. rewrite Hsort.
  apply Permutation_app_tail.
  clear -Hfl. induction Hfl as [|chunk batch ? ? [_ Hb] _ IH]; simpl; [done |].
  apply sort_records_Permutation in Hb. by rewrite Hb, IH.
Qed.
End ProcessDataFacts.

(** ** A run long enough to flush *)
Lemma io_bind_val {A B} (events : list event) (a : A) (f : A → io B) :
  (events, Ok a) ≫= f = (events ++ (f a).1, (f a).2).
Proof. reflexivity. Qed.

Lemma io_bind_pure {A B} (m : io A) (f : A → io B) (a : A) (x : io B) :
  m = ([], Ok a) → f a = x → m ≫= f = x.
Proof. intros -> <-. rewrite io_bind_val. by destruct (f a). Qed.

Lemma io_bind_step {A B} (m : io A) (f : A → io B) (events1 : list event) (a : A)
    (events2 : list event) (r : result B) :
  m = (events1, Ok a) → f a = (events2, r) → m ≫= f = (events1 ++ events2, r).
Proof. intros -> Hf. by rewrite io_bind_val, Hf. Qed.

Lemma for_each_app {A S} (body : S → A → io S) (l1 l2 : list A) (s : S) :
  data_clients.for_each body (l1 ++ l2) s
  = data_clients.for_each body l1 s ≫= data_clients.for_each body l2.
Proof.
  revert s. induction l1 as [|x l1 IH]; intros s; cbn [data_clients.for_each app].
  - unfold mret, io_ret. rewrite io_bind_val. simpl. by destruct (data_clients.for_each _ _ _).
  - destruct (body s x) as [events [s1|e]]; [| done].
    rewrite !io_bind_val, IH.
    destruct (data_clients.for_each body l1 s1) as [events1 [s2|e]]; [| done].
    rewrite !io_bind_val. simpl. by rewrite app_assoc.
Qed.

Lemma sort_decorated_repeat {A K} (lt : K → K → result bool) (p : K * A) (n : nat) :
  lt p.1 p.1 = Ok false → sort_decorated lt (repeat p n) = Ok (repeat p n).
Proof.
  intros Hp. induction n as [|n IH]; simpl; [done |].
  rewrite IH. simpl. destruct n as [|n]; simpl; [done |]. by rewrite Hp.
Qed.

Lemma sort_records_repeat (columns : nat) (data : record) (n : nat) :
  data_clients.sort_records columns (repeat data n) = Ok (repeat data n).
Proof.
  unfold data_clients.sort_records, sorted.
  assert (comprehension (λ data : record, Ok (take columns data)) (repeat data n)
          = Ok (repeat (take columns data) n)) as ->.
  { induction n as [|n IH]; simpl; [done |]. by rewrite IH. }
  simpl.
  assert (zip (repeat (take columns data) n) (repeat data n)
          = repeat (take columns data, data) n) as ->.
  { induction n as [|n IH]; simpl; [done |]. by rewrite IH. }
  rewrite sort_decorated_repeat by apply list_lt_refl.
  simpl. f_equal. induction n as [|n IH]; csimpl; [done |]. by rewrite IH.
Qed.

Lemma zip_longest_all_single {A} (l : list A) :
  data_clients.zip_longest_all [l] = (λ x, [Some x]) <$> l.
Proof.
  unfold data_clients.zip_longest_all. simpl. rewrite Nat.max_0_r.
  induction l as [|x l IH]; csimpl; [done |]. by rewrite IH.
Qed.

Lemma flush_size_eq : Z.of_nat flush_size = 52001%Z.
Proof. apply Z2Nat.id. lia. Qed.

Section LongRun.
Import functions data_clients.

Lemma long_round :
  collect long_processing 0 [Some [str "1"]] [] = Ok [[Some (str "1")]].
Proof. reflexivity. Qed.

Lemma long_rounds_keep (k : nat) (buffer : list record) (flag : bool) :
  (Z.of_nat (length buffer) + Z.of_nat k ≤ 52001)%Z →
  for_each (process_round long_processing) (repeat [Some [str "1"]] k) (buffer, flag)
  = ([], Ok (buffer ++ repeat [Some (str "1")] k, flag)).
Proof.
  revert buffer. induction k as [|k IH]; intros buffer Hlen; cbn [for_each repeat].
  - by rewrite app_nil_r.
  - rewrite process_round_keep by lia.
    rewrite long_round. simpl fmap. rewrite io_bind_val.
    rewrite IH by (rewrite length_app; simpl; lia).
    simpl. by rewrite <- app_assoc.
Qed.

Lemma long_rounds (n : nat) :
  Z.of_nat n = 52001%Z →
  for_each (process_round long_processing)
    (zip_longest_all [repeat [str "1"] (S n)]) ([], false)
  = (flush_events long_processing (repeat [Some (str "1")] n),
     Ok ([[Some (str "1")]], true)).
Proof.
  intros Hn. rewrite zip_longest_all_single.
  replace ((λ x, [Some x]) <$> repeat [str "1"] (S n))
    with (repeat [Some [str "1"]] n ++ [[Some [str "1"]]]).
  2:{ rewrite <- repeat_cons. clear Hn. simpl. f_equal.
      induction n as [|n IH]; csimpl; [done |]. by rewrite IH. }
  rewrite for_each_app, long_rounds_keep by (simpl; lia).
  rewrite io_bind_val. cbn [for_each app].
  rewrite process_round_flush by (rewrite repeat_length; lia).
  rewrite sort_records_repeat, long_round. reflexivity.
Qed.

Lemma long_process_data (n : nat) :
  Z.of_nat n = 52001%Z →
  process_data (long_disk (S n)) (set_file_processing_data long_processing ∅)
  = (flush_events long_processing (repeat [Some (str "1")] n),
     Ok (long_processing, (true, [[Some (str "1")]]))).
Proof.
  intros Hn. unfold process_data.
  eapply io_bind_pure; [reflexivity |].
  eapply io_bind_pure; [reflexivity |].
  eapply io_bind_pure; [reflexivity |].
  rewrite <- (app_nil_r (flush_events _ _)).
  eapply io_bind_step; [apply (long_rounds n Hn) |].
  reflexivity.
Qed.

Lemma long_main (n : nat) :
  Z.of_nat n = 52001%Z →
  main.process_data (long_disk (S n)) (str "/in/") [[str "a.csv"]]
  = ([ MakeDir (str "/in/result/");
       FileWrite (str "/in/result/result.tsv") (str "D1" ++ [10]);
       Stdout (reading_message 1);
       FileAppend (str "../data/result/result.tsv")
         (batch_text (repeat [Some (str "1")] n));
       FileAppend (str "/in/result/result.tsv") (str "1" ++ [9]);
       Stdout (main.written_message (str "/in/result/result.tsv")) ],
     Ok ()).
Proof.
  intros Hn. unfold main.process_data.
  eapply io_bind_pure; [reflexivity |].
  eapply (io_bind_step _ _ [_; _] _ [_; _; _; _]).
  { instantiate (1 := set_file_processing_data long_processing ∅).
    vm_compute. reflexivity. }
  eapply (io_bind_step _ _ [_; _] _ [_; _]); [apply (long_process_data n Hn) |].
  reflexivity.
Qed.
End LongRun.

(** * Examples *)

(** Numbers inside names compare by value. *)
Example sort_alphanumeric_example :
  functions.sort_alphanumeric [str "D1"; str "D2"; str "D10"; str "D9"] false
  = Ok [str "D1"; str "D2"; str "D9"; str "D10"].
Proof. reflexivity. Qed.

(** A record follows its headers into their order. *)
Example order_record_example :
  functions.order_record [str "x"; str "2"; str "1"] [str "M1"; str "D2"; str "D1"]
  = Ok [str "1"; str "2"; str "x"].
Proof. reflexivity. Qed.

(** Two sources with the same columns, one of them out of order and one
    record longer: the rounds go on for the longer source and the three
    records are written in the order of their first three columns. *)
Example merge_example :
  main.process_data example_disk (str "/in/") [[str "a.csv"; str "c.csv"]]
  = ([ MakeDir (str "/in/result/");
       FileWrite (str "/in/result/result.tsv")
         (str "D1" ++ [9] ++ str "D2" ++ [9] ++ str "M1" ++ [10]);
       FileAppend (str "/in/result/result.tsv")
         (str "0" ++ [9] ++ str "1" ++ [9] ++ str "y" ++ [9] ++ [10]
          ++ str "1" ++ [9] ++ str "2" ++ [9] ++ str "x" ++ [9] ++ [10]
          ++ str "1" ++ [9] ++ str "2" ++ [9] ++ str "x" ++ [9]);
       Stdout (main.written_message (str "/in/result/result.tsv")) ],
     Ok ()).
Proof. vm_compute. reflexivity. Qed.

(** A nested document ends the run when its headers are read: its file is
    opened in binary mode with an encoding. *)
Example json_source_example :
  main.process_data example_disk (str "/in/") [[str "a.csv"]; [str "j.json"]]
  = ([], Raise (ValueError (str "binary mode doesn't take an encoding argument"))).
Proof. vm_compute. reflexivity. Qed.

(** * The claims *)

(** ** Column Key Ordering *)

(** C4, counterexample. The name made of the Arabic-Indic digit three has
    the key [[3]] and the name [a] the key [['A']]: the comparison of the
    two keys raises a type error, and so does [sort_alphanumeric] on the
    two names. Nothing falls back to a comparison of strings. *)
Lemma sort_alphanumeric_type_mismatch :
  functions.alphanum_key [0x663] = Ok [functions.TInt 3] ∧
  functions.alphanum_key (str "a") = Ok [functions.TStr (str "A")] ∧
  functions.key_lt [functions.TInt 3] [functions.TStr (str "A")] = Raise TypeError ∧
  functions.sort_alphanumeric [[0x663]; str "a"] false = Raise TypeError.
Proof. repeat split; reflexivity. Qed.

(** C4, amended. For names of ASCII characters whose runs of digits are
    within the limit of [int], the keys alternate text and number,
    beginning with text, so two keys never meet an integer with a string:
    [sort_alphanumeric] returns, and what it returns is its input
    reordered, in key order when ascending. There is no fallback: two keys
    that agree up to a place where one holds an integer and the other a
    string raise a type error under the comparison, either way round; and
    whenever the comparison of the keys of two names of the list raises it,
    [sort_alphanumeric] raises, the type error itself when every name has
    a key. *)
Theorem sort_alphanumeric_ascii (strings : list pystr) (descending : bool) :
  (Forall ascii_name strings → Forall digit_runs_within_limit strings →
   Forall (λ data, ∃ k, functions.alphanum_key data = Ok k ∧ alternating true k) strings
   ∧ ∃ s, functions.sort_alphanumeric strings descending = Ok s
          ∧ s ≡ₚ strings
          ∧ (descending = false →
             StronglySorted (key_not_after functions.key_lt functions.alphanum_key) s))
  ∧ (∀ before n t after after',
       functions.key_lt (before ++ functions.TInt n :: after)
         (before ++ functions.TStr t :: after') = Raise TypeError
       ∧ functions.key_lt (before ++ functions.TStr t :: after')
           (before ++ functions.TInt n :: after) = Raise TypeError)
  ∧ (∀ a b ka kb,
       a ∈ strings → b ∈ strings →
       functions.alphanum_key a = Ok ka → functions.alphanum_key b = Ok kb →
       functions.key_lt ka kb = Raise TypeError →
       (∃ e, functions.sort_alphanumeric strings descending = Raise e)
       ∧ (Forall (λ data, ∃ k, functions.alphanum_key data = Ok k) strings →
          functions.sort_alphanumeric strings descending = Raise TypeError)).
Proof.
  split; [| split].
  - intros Hs Hlimit. split.
    + apply Forall_forall. intros data Hdata. rewrite Forall_forall in Hs, Hlimit.
      by apply alphanum_key_ascii; [apply Hs | apply Hlimit].
    + destruct (sort_alphanumeric_ascii_total strings descending Hs Hlimit) as [s Hsort].
      exists s. split; [done |]. split.
      * by apply sorted_Permutation in Hsort.
      * intros ->. eapply sorted_StronglySorted; [| | exact Hsort].
        -- apply key_lt_asym.
        -- apply key_not_lt_trans.
  - intros before n t after after'. unfold functions.key_lt.
    induction before as [|x before IH]; simpl.
    + by split.
    + by rewrite !decide_True by done.
  - intros a b ka kb Ha Hb Hka Hkb Hraise.
    destruct (functions.sort_alphanumeric strings descending) as [s|e] eqn:Hsort.
    + exfalso.
      destruct (sorted_comparable_any functions.key_lt functions.alphanum_key
                  key_lt_asym key_not_lt_trans (list_lt_refl _) key_lt_back
                  descending strings s Hsort a b Ha Hb)
        as (ka' & kb' & r & Hka' & Hkb' & Hr).
      congruence.
    + split; [by eexists |]. intros Hkeys. f_equal.
      apply sorted_Raise in Hsort as [(x & Hx & Hkx)|(kx & ky & Hlt)].
      * rewrite Forall_forall in Hkeys. destruct (Hkeys x Hx) as [k Hk]. congruence.
      * by eapply key_lt_Raise.
Qed.

Lemma sort_alphanumeric_ascii_witness :
  ∃ s, functions.sort_alphanumeric [str "D1"; str "D2"; str "D10"; str "D9"] false = Ok s
       ∧ s ≡ₚ [str "D1"; str "D2"; str "D10"; str "D9"].
Proof.
  destruct (sort_alphanumeric_ascii [str "D1"; str "D2"; str "D10"; str "D9"] false)
    as ((_ & s & Hs & Hp & _) & _).
  - repeat constructor.
  - apply (bool_decide_unpack _). vm_compute. exact I.
  - by exists s.
Defined.

(** ** Schema Reconciler *)

(** C8. Whatever order the set of headers is listed in, the headers
    [sort_headers] stores hold every column name of every source once, and
    are [sort_alphanumeric] of the union of the sources' columns; it stores
    them whenever there is a source and the names are ASCII, with runs of
    digits within the limit of [int]. *)
Theorem sort_headers_union `{SetOrder} (self : data_clients.ProcessData) :
  (∀ self', data_clients.sort_headers self = Ok self' →
     NoDup (data_clients.headers self')
     ∧ (∀ header, header ∈ data_clients.headers self' ↔
                  ∃ file_headers, file_headers ∈ data_clients._headers_by_file self
                                  ∧ header ∈ file_headers)
     ∧ functions.sort_alphanumeric
         (set_to_list (⋃ (list_to_set <$> data_clients._headers_by_file self))) false
       = Ok (data_clients.headers self'))
  ∧ (data_clients._headers_by_file self ≠ [] →
     Forall (Forall ascii_name) (data_clients._headers_by_file self) →
     Forall (Forall digit_runs_within_limit) (data_clients._headers_by_file self) →
     ∃ self', data_clients.sort_headers self = Ok self').
Proof.
  split.
  - intros self' Hsort%sort_headers_Ok.
    assert (Hperm := Hsort). apply sorted_Permutation in Hperm.
    split; [| split; [| done]].
    + rewrite Hperm. apply set_to_list_NoDup.
    + intros header. by rewrite Hperm, elem_of_set_to_list, elem_of_union_headers.
  - intros Hne Hascii Hlimit. unfold data_clients.sort_headers.
    destruct (data_clients._headers_by_file self) as [|first others] eqn:Hhs; [done |].
    destruct (sort_alphanumeric_ascii_total
                (set_to_list (data_clients.gather_headers first others)) false) as [hs Hsort].
    + apply Forall_forall. intros header Hin.
      rewrite elem_of_set_to_list, gather_headers_union, elem_of_union_headers in Hin.
      destruct Hin as (file_headers & Hfile & Hin).
      rewrite Forall_forall in Hascii. specialize (Hascii _ Hfile).
      rewrite Forall_forall in Hascii. by apply Hascii.
    + apply Forall_forall. intros header Hin.
      rewrite elem_of_set_to_list, gather_headers_union, elem_of_union_headers in Hin.
      destruct Hin as (file_headers & Hfile & Hin).
      rewrite Forall_forall in Hlimit. specialize (Hlimit _ Hfile).
      rewrite Forall_forall in Hlimit. by apply Hlimit.
    + rewrite Hsort. by eexists.
Qed.

Lemma sort_headers_union_witness :
  ∃ self', data_clients.sort_headers
             (data_clients.set_headers example_processing []) = Ok self'
           ∧ NoDup (data_clients.headers self')
           ∧ data_clients.headers self' = [str "D1"; str "D2"; str "M1"; str "M2"].
Proof.
  destruct (sort_headers_union (data_clients.set_headers example_processing []))
    as [Hunion Htotal].
  destruct Htotal as [self' Hsort].
  - done.
  - repeat constructor.
  - apply (bool_decide_unpack _). vm_compute. exact I.
  - exists self'. destruct (Hunion self' Hsort) as (Hnodup & _ & _).
    split; [done |]. split; [done |].
    revert Hsort. vm_compute. by intros [= <-].
Defined.

(** ** Record Realigner *)

Lemma complete_record_length (self : data_clients.ProcessData) (record : list pystr)
    (file_position : nat) (completed : list (option pystr)) (file_name : pystr)
    (entry : data_clients.processing_data) :
  data_clients._file_names self !! file_position = Some file_name →
  data_clients.file_processing_data self !! file_name = Some entry →
  data_clients.complete_record self record file_position = Ok completed →
  length completed
  = Nat.max (length record) (length (data_clients.header_comparison entry)).
Proof.
  unfold data_clients.complete_record, data_clients.subscript, data_clients.item.
  intros Hname Hentry. rewrite Hname. simpl. rewrite Hentry. simpl.
  intros [= <-]. rewrite length_fmap.
  generalize (data_clients.header_comparison entry) as bits.
  induction record as [|cell record IH]; intros [|bit bits]; simpl;
    rewrite ?length_fmap; auto.
Qed.

(** Where every column the source has comes before every column it lacks,
    pairing by position and walking the bitmap give the same record. *)
Lemma complete_record_prefix (self : data_clients.ProcessData) (record : list pystr)
    (file_position absent : nat) (file_name : pystr) (entry : data_clients.processing_data) :
  data_clients._file_names self !! file_position = Some file_name →
  data_clients.file_processing_data self !! file_name = Some entry →
  data_clients.header_comparison entry = repeat true (length record) ++ repeat false absent →
  data_clients.complete_record self record file_position
  = Ok (complete_by_bitmap record (data_clients.header_comparison entry)).
Proof.
  unfold data_clients.complete_record, data_clients.subscript, data_clients.item.
  intros Hname Hentry Hbits. rewrite Hname. simpl. rewrite Hentry. simpl.
  rewrite Hbits. f_equal. clear.
  induction record as [|cell record IH]; simpl.
  - induction absent as [|absent IH]; csimpl; [done |]. by rewrite <- IH.
  - by rewrite <- IH.
Qed.

(** C1, at the failing input. The second source of the specification's
    merge example has the columns D1, M1, M2 of the unified schema D1, D2,
    M1, M2, so its bitmap is true, false, true, true, and its record is
    (1, y, z). [complete_record] pairs cell and bit position by position:
    the cell y meets the false bit and is lost, the last bit meets no cell.
    Walking the bitmap gives (1, absent, y, z); the cells [complete_record]
    leaves at the true positions are not the record. *)
Theorem complete_record_pairs_by_position :
  let record := [str "1"; str "y"; str "z"] in
  let bitmap := [true; false; true; true] in
  data_clients.header_comparison
    <$> data_clients.file_processing_data example_processing !! str "b.csv" = Some bitmap
  ∧ data_clients.complete_record example_processing record 1
    = Ok [Some (str "1"); None; Some (str "z"); None]
  ∧ complete_by_bitmap record bitmap = [Some (str "1"); None; Some (str "y"); Some (str "z")]
  ∧ present_cells [Some (str "1"); None; Some (str "z"); None] bitmap
    = [Some (str "1"); Some (str "z"); None]
  ∧ present_cells (complete_by_bitmap record bitmap) bitmap = Some <$> record.
Proof. repeat split; reflexivity. Qed.

(** ** Output Sink *)

Lemma cells_row_text (line : record) :
  concat ((λ value, file_generators.cell_text value ++ [9]) <$> line) = row_text line.
Proof.
  induction line as [|[cell|] line IH]; csimpl; [done | |]; rewrite IH; [| done].
  by rewrite <- app_assoc.
Qed.

Lemma write_lines_join (data : list record) (records_counter : Z) :
  file_generators.write_lines (records_counter + Z.of_nat (length data) - 1) records_counter data
  = join [10] (row_text <$> data).
Proof.
  pose proof cells_row_text as Hrow.
  revert records_counter. induction data as [|line data IH]; intros counter; [done |].
  cbn [file_generators.write_lines fmap list_fmap join]. rewrite Hrow.
  destruct data as [|line' data].
  - simpl. rewrite (proj2 (Z.ltb_ge _ _)) by lia.
    by rewrite !app_nil_r.
  - rewrite (proj2 (Z.ltb_lt _ _)) by (simpl length; lia).
    replace (counter + Z.of_nat (length (line :: line' :: data)) - 1)%Z
      with (counter + 1 + Z.of_nat (length (line' :: data)) - 1)%Z by (simpl length; lia).
    by rewrite IH.
Qed.

(** C9. [set_data] appends, for a batch, the text of its rows joined by
    newlines: in a row every cell is followed by one tab, the last one too,
    an absent cell being empty; a newline stands between two rows and none
    after the last. *)
Theorem set_data_text (self : file_generators.FileGenerator) (data : list record) :
  file_generators.set_data self data
  = ([FileAppend (file_generators.file self) (join [10] (row_text <$> data))], Ok ()).
Proof.
  unfold file_generators.set_data. simpl.
  unfold mbind, io_bind, emit. simpl. do 3 f_equal.
  by rewrite <- (write_lines_join data 0).
Qed.

(** C3, on the code. For an extension the factory of generators does not
    hold, the subscript of the dictionary raises a key error; building the
    writer catches value errors only, so the key error leaves it: nothing
    is printed and no writer is made. The factory of readers looks the
    extension up with [get] and raises the value error of unsupported
    formats. *)
Theorem writer_unregistered_extension (base_directory file_name extension : pystr) :
  file_generators.FileGeneratorFactory !! extension = None →
  file_generators.get_file_generator file_generators.FileGeneratorFactory
    (base_directory ++ str "result/") file_name extension = Raise (KeyError extension)
  ∧ data_clients.WriteData_init base_directory file_name extension
    = ([], Raise (KeyError extension))
  ∧ (∀ path file,
       file_readers.FileReaderFactory !! List.last (rsplit 46 file) [] = None →
       file_readers.get_file_reader file_readers.FileReaderFactory path file
       = Raise (ValueError (file_readers.not_supported (List.last (rsplit 46 file) [])))).
Proof.
  intros Hext. split; [| split].
  - unfold file_generators.get_file_generator. by rewrite Hext.
  - unfold data_clients.WriteData_init, file_generators.get_file_generator. by rewrite Hext.
  - intros path file Hfile. unfold file_readers.get_file_reader. by rewrite Hfile.
Qed.

Lemma writer_unregistered_extension_witness :
  data_clients.WriteData_init (str "/in/") (str "result") (str "yaml")
  = ([], Raise (KeyError (str "yaml")))
  ∧ file_readers.get_file_reader file_readers.FileReaderFactory (str "/in/") (str "a.yaml")
    = Raise (ValueError (str "The extension 'yaml' is not supported.")).
Proof.
  destruct (writer_unregistered_extension (str "/in/") (str "result") (str "yaml"))
    as (_ & Hwriter & Hreader); [reflexivity |].
  split; [exact Hwriter |].
  apply (Hreader (str "/in/") (str "a.yaml")). reflexivity.
Defined.

(** ** Source Reader *)

Lemma read_items_zero (raw_data : list pystr) (items : list (pystr * pystr)) :
  file_readers.read_items 0 raw_data items = [].
Proof.
  revert raw_data. induction items as [|[key value] items IH]; intros raw_data; simpl; [done |].
  rewrite decide_False; [apply IH |]. rewrite length_app. simpl. lia.
Qed.

(** C10, on the code. The loop of the JSON reader never yields when the
    number of cells per record is zero, whatever the items are; a JSON
    source with no header gets that number. The reader does not reach the
    loop: it opens its file in binary mode with an encoding, which raises a
    value error when the sequence is first advanced. *)
Theorem json_reader_hint_zero :
  (∀ raw_data items, file_readers.read_items 0 raw_data items = [])
  ∧ (∀ d self data_generators file file_reader,
       contains (str ".json") file = true →
       file_readers.get_file_reader file_readers.FileReaderFactory
         (data_clients._path self) file = Ok file_reader →
       data_clients.get_data_generator d self data_generators (file, [])
       = ([], Ok (data_generators ++ [file_readers.read_record d file_reader 0])))
  ∧ (∀ d self data_by_record,
       file_readers.reader self = file_readers.JSONFileReader →
       file_readers.initialised self = true →
       file_readers.read_record d self data_by_record
       = Raise (ValueError (str "binary mode doesn't take an encoding argument"))).
Proof.
  split; [| split].
  - apply read_items_zero.
  - intros d self gens file file_reader Hjson Hreader.
    unfold data_clients.get_data_generator. by rewrite Hjson, Hreader.
  - intros d self n Hclass Hinit.
    unfold file_readers.read_record, file_readers.opened. by rewrite Hclass, Hinit.
Qed.

Lemma json_reader_hint_zero_witness :
  data_clients.get_data_generator example_disk
    (data_clients.ProcessData_init (str "/in/")) [] (str "j.json", [])
  = ([], Ok [Raise (ValueError (str "binary mode doesn't take an encoding argument"))])
  ∧ file_readers.read_items 0 [] (file_readers.items_kv (example_disk (str "/in/j.json"))) = [].
Proof.
  destruct json_reader_hint_zero as (Hloop & Hhint & Hopen).
  split; [| apply Hloop].
  rewrite (Hhint example_disk (data_clients.ProcessData_init (str "/in/")) [] (str "j.json")
             (file_readers.FileReader_init file_readers.JSONFileReader (str "/in/") (str "j.json")));
    [| reflexivity | reflexivity].
  rewrite Hopen; reflexivity.
Defined.

(** ** Merge-Sort-Spill Engine *)





(** C5, at the failing input: the merge example of the specification. The
    headers of the two sources give the state [example_processing]. The
    record of the first source is completed as the specification says; the
    record (1, y, z) of the second source is completed to (1, absent, z,
    absent), without its cell y. The final sort then compares the cell 2 of
    the first record with the absent cell of the second and raises a type
    error: [process_data] returns nothing and the run stops after the
    header line, no record written. *)
Theorem merge_example_raises :
  (processing ← (data_clients.get_all_headers example_disk
                   (data_clients.ProcessData_init (str "/in/"))
                   [[str "a.csv"; str "b.csv"]]).2;
   processing ← data_clients.sort_headers processing;
   data_clients.make_file_processing_data processing) = Ok example_processing
  ∧ data_clients.zip_longest_all [[[str "1"; str "2"; str "x"]]; [[str "1"; str "y"; str "z"]]]
    = [[Some [str "1"; str "2"; str "x"]; Some [str "1"; str "y"; str "z"]]]
  ∧ data_clients.collect example_processing 0
      [Some [str "1"; str "2"; str "x"]; Some [str "1"; str "y"; str "z"]] []
    = Ok [[Some (str "1"); Some (str "2"); Some (str "x"); None];
          [Some (str "1"); None; Some (str "z"); None]]
  ∧ data_clients.sort_records 3
      [[Some (str "1"); Some (str "2"); Some (str "x"); None];
       [Some (str "1"); None; Some (str "z"); None]]
    = Raise TypeError
  ∧ main.process_data example_disk (str "/in/") [[str "a.csv"; str "b.csv"]]
    = ([ MakeDir (str "/in/result/");
         FileWrite (str "/in/result/result.tsv")
           (str "D1" ++ [9] ++ str "D2" ++ [9] ++ str "M1" ++ [9] ++ str "M2" ++ [10]) ],
       Raise TypeError).
Proof. repeat split; vm_compute; reflexivity. Qed.

(** C2, at the failing input: the source directory [/in/] with one file of
    52002 rows. The header and the final batch go to
    [/in/result/result.tsv]; the partial flush of the first 52001 records
    is made by a writer built with the default directory and goes to
    [../data/result/result.tsv]. *)
Theorem partial_flush_in_default_directory :
  main.process_data (long_disk (S flush_size)) (str "/in/") [[str "a.csv"]]
  = ([ MakeDir (str "/in/result/");
       FileWrite (str "/in/result/result.tsv") (str "D1" ++ [10]);
       Stdout (data_clients.reading_message 1);
       FileAppend (str "../data/result/result.tsv")
         (batch_text (repeat [Some (str "1")] flush_size));
       FileAppend (str "/in/result/result.tsv") (str "1" ++ [9]);
       Stdout (main.written_message (str "/in/result/result.tsv")) ],
     Ok ()).
Proof. apply long_main, flush_size_eq. Qed.

(** * Further properties *)

(** ** Record realignment *)

Lemma sort_decorated_id {A K} (lt : K → K → result bool) (d : list (K * A)) :
  Sorted (not_after lt) d → sort_decorated lt d = Ok d.
Proof.
  induction 1 as [|x d _ IH Hhd]; simpl; [done |].
  rewrite IH. simpl. destruct Hhd as [|y d Hxy]; simpl; [done |].
  unfold not_after in Hxy. by rewrite Hxy.
Qed.

Lemma Sorted_zip_keys {A B K} (lt : K → K → result bool) (keys : list K)
    (xs : list A) (ys : list B) :
  length keys = length xs → length keys = length ys →
  Sorted (not_after lt) (zip keys xs) → Sorted (not_after lt) (zip keys ys).
Proof.
  revert xs ys. induction keys as [|k keys IH]; intros [|x xs] [|y ys]; simpl; try done.
  intros [= Hx] [= Hy] Hs. inversion Hs as [|? ? Hs' Hhd]; subst.
  constructor; [by eapply IH |].
  destruct keys as [|k' keys], xs as [|x' xs], ys as [|y' ys]; simpl in *; try done.
  constructor. by inversion Hhd.
Qed.

Lemma decorated_unique {A K} (key : A → result K) (keys : list K) (l : list A)
    (s : list (K * A)) :
  Forall2 (λ x k, key x = Ok k) l keys → Forall (λ p, key p.2 = Ok p.1) s →
  s.*2 = l → s = zip keys l.
Proof.
  intros Hk. revert s. induction Hk as [|x k l keys Hx _ IH]; intros [|[k' x'] s]; try done.
  csimpl. intros Hs [= -> Hl]. inversion Hs as [|? ? Hp Hs']; subst. simpl in Hp.
  f_equal; [| by apply IH]. rewrite Hx in Hp. by injection Hp as ->.
Qed.

(** A list that [sorted] returns unchanged is one whose decorated form is in
    order already. *)
Lemma sorted_id_Sorted {A K} (lt : K → K → result bool) (key : A → result K) (l : list A) :
  (∀ x y, lt x y = Ok true → lt y x = Ok false) →
  sorted lt key false l = Ok l →
  ∃ keys, comprehension key l = Ok keys ∧ Sorted (not_after lt) (zip keys l).
Proof.
  intros Hasym. unfold sorted.
  intros (keys & Hk & (s & Hs & [= Hl])%bind_Ok)%bind_Ok.
  exists keys. split; [done |].
  assert (s = zip keys l) as <-; [| by eapply sort_decorated_Sorted].
  apply (decorated_unique key); [by apply comprehension_Ok | | done].
  apply decorated_keys in Hk as [_ Hk].
  apply sort_decorated_Permutation in Hs. by rewrite Hs.
Qed.

Lemma zip_snd_take {A B} (xs : list A) (ys : list B) :
  (zip xs ys).*2 = take (length xs) ys.
Proof.
  revert ys. induction xs as [|x xs IH]; intros [|y ys]; csimpl; try done.
  by rewrite IH.
Qed.

Section OrderRecordFacts.
Import functions.

Lemma couple_keys (headers : list pystr) (record : list pystr) (keys : list (list token)) :
  length record = length headers →
  comprehension alphanum_key headers = Ok keys →
  comprehension (λ data : pystr * pystr, alphanum_key data.1) (zip headers record) = Ok keys.
Proof.
  intros Hlen Hk. apply comprehension_Ok. apply comprehension_Ok in Hk.
  revert record Hlen. induction Hk as [|h k headers keys Hh _ IH]; intros [|cell record];
    simpl; try done.
  intros [= Hlen]. constructor; [done | by apply IH].
Qed.

Lemma order_record_Ok (record headers ordered : list pystr) :
  order_record record headers = Ok ordered →
  ∃ couple,
    sorted key_lt (λ data : pystr * pystr, alphanum_key data.1) false (zip headers record)
    = Ok couple ∧ ordered = couple.*2 ∧ couple ≠ [].
Proof.
  unfold order_record. intros (couple & Hc & Hu)%bind_Ok.
  exists couple. destruct couple; [done |]. by injection Hu as <-.
Qed.
End OrderRecordFacts.

(** X1. When [order_record] returns, every cell is still with the header
    it came under, the headers are in key order, and the record it returns
    is a reordering of the cells that had a header: as many as the shorter
    of record and headers, and at least one. *)
Theorem order_record_keeps_pairs (record headers ordered : list pystr) :
  functions.order_record record headers = Ok ordered →
  ∃ sorted_headers,
    zip sorted_headers ordered ≡ₚ zip headers record
    ∧ length sorted_headers = length ordered
    ∧ StronglySorted (key_not_after functions.key_lt functions.alphanum_key) sorted_headers
    ∧ ordered ≡ₚ take (length headers) record
    ∧ ordered ≠ [].
Proof.
  intros (couple & Hsort & -> & Hne)%order_record_Ok.
  exists (couple.*1).
  assert (Hperm := Hsort). apply sorted_Permutation in Hperm.
  split; [by rewrite zip_fst_snd |]. split; [by rewrite !length_fmap |]. split; [| split].
  - apply sorted_StronglySorted in Hsort; [| apply key_lt_asym | apply key_not_lt_trans].
    clear -Hsort. induction Hsort as [|p couple _ IH Hall]; csimpl; constructor; [done |].
    clear -Hall. induction Hall as [|q couple Hq _ IH]; csimpl; constructor; done.
  - by rewrite Hperm, zip_snd_take.
  - by destruct couple.
Qed.

Lemma order_record_keeps_pairs_witness :
  ∃ sorted_headers,
    zip sorted_headers [str "1"; str "2"; str "x"]
    ≡ₚ zip [str "M1"; str "D2"; str "D1"] [str "x"; str "2"; str "1"].
Proof.
  destruct (order_record_keeps_pairs [str "x"; str "2"; str "1"]
              [str "M1"; str "D2"; str "D1"] [str "1"; str "2"; str "x"])
    as (sorted_headers & Hzip & _); [reflexivity |].
  by exists sorted_headers.
Defined.

(** X2. For headers that [sort_alphanumeric] leaves as they are, that is
    for a source whose [rearrangement_needed] flag is false, [order_record]
    returns a record of the same length unchanged: the realignment the
    engine skips would have done nothing. *)
Theorem order_record_sorted_headers (record headers : list pystr) :
  functions.sort_alphanumeric headers false = Ok headers →
  length record = length headers →
  headers ≠ [] →
  functions.order_record record headers = Ok record.
Proof.
  intros Hsorted Hlen Hne.
  apply sorted_id_Sorted in Hsorted as (keys & Hk & Hs); [| apply key_lt_asym].
  assert (length keys = length headers) as Hkeys.
  { apply comprehension_Ok in Hk. symmetry. by eapply Forall2_length. }
  unfold functions.order_record, sorted.
  rewrite (couple_keys headers record keys Hlen Hk). simpl.
  rewrite sort_decorated_id.
  - simpl. rewrite !snd_zip by (rewrite ?length_zip_with; lia).
    destruct headers, record; done.
  - eapply Sorted_zip_keys; [| | exact Hs]; [done |].
    rewrite length_zip_with. lia.
Qed.

Lemma order_record_sorted_headers_witness :
  functions.order_record [str "1"; str "2"; str "x"] [str "D1"; str "D2"; str "M1"]
  = Ok [str "1"; str "2"; str "x"].
Proof.
  apply order_record_sorted_headers; [reflexivity | reflexivity | done].
Defined.

(** ** Source descriptors *)

Lemma zip_fst_take {A B} (xs : list A) (ys : list B) :
  (zip xs ys).*1 = take (length ys) xs.
Proof.
  revert ys. induction xs as [|x xs IH]; intros [|y ys]; csimpl; try done.
  by rewrite IH.
Qed.

Section DescriptorFacts.
Import functions data_clients.

(** The step of the loop of [make_file_processing_data]. *)
Local Abbreviation descriptor_step self :=
  (λ (acc : result (gmap pystr processing_data)) (entry : pystr * list pystr),
     data ← acc;
     let '(file_name, file_headers) := entry in
     let headers_list := (λ header, is_in header file_headers) <$> headers self in
     sorted_headers ← sort_alphanumeric file_headers false;
     Ok (<[ file_name :=
              {| header_comparison := headers_list;
                 rearrangement_needed := bool_decide (file_headers ≠ sorted_headers) |} ]>
           data)).

Lemma descriptors_Raise (self : ProcessData) (l : list (pystr * list pystr)) (e : exn) :
  foldl (descriptor_step self) (Raise e) l = Raise e.
Proof. induction l as [|[n fh] l IH]; simpl; [done | exact IH]. Qed.

Lemma descriptors_Ok (self : ProcessData) (l : list (pystr * list pystr))
    (m m' : gmap pystr processing_data) :
  foldl (descriptor_step self) (Ok m) l = Ok m' →
  (∀ name, name ∉ l.*1 → m' !! name = m !! name)
  ∧ (NoDup (l.*1) → ∀ name fh, (name, fh) ∈ l →
     ∃ sorted_headers,
       sort_alphanumeric fh false = Ok sorted_headers
       ∧ m' !! name
         = Some {| header_comparison := (λ header, is_in header fh) <$> headers self;
                   rearrangement_needed := bool_decide (fh ≠ sorted_headers) |}).
Proof.
  revert m. induction l as [|[n fh] l IH]; intros m; simpl.
  - intros [= <-]. split; [done |]. by intros _ name fh' ?%elem_of_nil.
  - destruct (sort_alphanumeric fh false) as [sh|e] eqn:Hsort; simpl;
      [| by rewrite descriptors_Raise].
    intros [Hout Hin]%IH. split.
    + intros name [Hne Hname]%not_elem_of_cons.
      rewrite Hout by done. by rewrite lookup_insert_ne.
    + intros [Hn Hnodup]%NoDup_cons name fh' [[= -> ->]|Hl]%elem_of_cons.
      * exists sh. split; [done |]. rewrite Hout by done. by rewrite lookup_insert_eq.
      * by apply Hin.
Qed.

Lemma true_bits_is_in (fh hs : list pystr) :
  true_bits ((λ header, is_in header fh) <$> hs) = length (filter (λ header, header ∈ fh) hs).
Proof.
  unfold true_bits. induction hs as [|h hs IH]; csimpl; [done |].
  unfold is_in at 1. destruct (decide (h ∈ fh)) as [Hin|Hin].
  - rewrite bool_decide_eq_true_2 by done.
    rewrite (filter_cons_True (λ bit, bit = true)) by done.
    rewrite (filter_cons_True (λ header, header ∈ fh)) by done. simpl. by rewrite IH.
  - rewrite bool_decide_eq_false_2 by done.
    rewrite (filter_cons_False (λ bit, bit = true)) by done.
    rewrite (filter_cons_False (λ header, header ∈ fh)) by done. exact IH.
Qed.

Lemma descriptors_lengths (self : ProcessData) (l : list (pystr * list pystr))
    (m m' : gmap pystr processing_data) :
  foldl (descriptor_step self) (Ok m) l = Ok m' →
  map_Forall (λ _ entry, length (header_comparison entry) = length (headers self)) m →
  map_Forall (λ _ entry, length (header_comparison entry) = length (headers self)) m'.
Proof.
  revert m. induction l as [|[n fh] l IH]; intros m; simpl.
  - by intros [= <-].
  - destruct (sort_alphanumeric fh false) as [sh|e] eqn:Hsort; simpl;
      [| by rewrite descriptors_Raise].
    intros Hfold Hm. eapply IH; [exact Hfold |].
    apply map_Forall_insert_2; [| done]. simpl. by rewrite length_fmap.
Qed.

Lemma make_file_processing_data_lengths (self self' : ProcessData) :
  make_file_processing_data self = Ok self' →
  file_processing_data self = ∅ →
  map_Forall (λ _ entry, length (header_comparison entry) = length (headers self))
    (file_processing_data self').
Proof.
  unfold make_file_processing_data.
  intros (m' & Hfold & [= <-])%bind_Ok Hempty. simpl.
  eapply descriptors_lengths; [exact Hfold |]. rewrite Hempty. apply map_Forall_empty.
Qed.

Lemma make_file_processing_data_lookup (self self' : ProcessData) (i : nat) (name : pystr)
    (fh : list pystr) :
  make_file_processing_data self = Ok self' →
  NoDup (_file_names self) →
  _file_names self !! i = Some name →
  _headers_by_file self !! i = Some fh →
  self' = set_file_processing_data self (file_processing_data self')
  ∧ ∃ sorted_headers,
      sort_alphanumeric fh false = Ok sorted_headers
      ∧ file_processing_data self' !! name
        = Some {| header_comparison := (λ header, is_in header fh) <$> headers self;
                  rearrangement_needed := bool_decide (fh ≠ sorted_headers) |}.
Proof.
  unfold make_file_processing_data.
  intros (m' & Hfold & [= <-])%bind_Ok Hnodup Hname Hfh. split; [done |].
  apply descriptors_Ok in Hfold as [_ Hin]. apply Hin.
  - rewrite zip_fst_take.
    rewrite <- (take_drop (length (_headers_by_file self)) (_file_names self)) in Hnodup.
    by apply NoDup_app in Hnodup as [Hnodup _].
  - apply list_elem_of_lookup. exists i. rewrite lookup_zip_with, Hname. simpl.
    by rewrite Hfh.
Qed.
End DescriptorFacts.

(** X3. [make_file_processing_data] changes nothing but the dictionary,
    and, the file names being distinct, gives every file the entry of its
    own headers: a bitmap with one bit per unified column, true exactly
    where the column is one of the file's, and a flag that is false exactly
    when [sort_alphanumeric] leaves the file's headers as they are. *)
Theorem make_file_processing_data_entries (self self' : data_clients.ProcessData)
    (i : nat) (name : pystr) (fh : list pystr) :
  data_clients.make_file_processing_data self = Ok self' →
  NoDup (data_clients._file_names self) →
  data_clients._file_names self !! i = Some name →
  data_clients._headers_by_file self !! i = Some fh →
  data_clients.headers self' = data_clients.headers self
  ∧ data_clients._file_names self' = data_clients._file_names self
  ∧ data_clients._headers_by_file self' = data_clients._headers_by_file self
  ∧ data_clients._path self' = data_clients._path self
  ∧ ∃ entry,
      data_clients.file_processing_data self' !! name = Some entry
      ∧ length (data_clients.header_comparison entry) = length (data_clients.headers self)
      ∧ (∀ j header, data_clients.headers self !! j = Some header →
           data_clients.header_comparison entry !! j = Some (bool_decide (header ∈ fh)))
      ∧ (data_clients.rearrangement_needed entry = false
         ↔ functions.sort_alphanumeric fh false = Ok fh).
Proof.
  intros Hmake Hnodup Hname Hfh.
  destruct (make_file_processing_data_lookup _ _ _ _ _ Hmake Hnodup Hname Hfh)
    as (-> & sh & Hsort & Hentry).
  repeat split; try done.
  eexists. split; [exact Hentry |]. simpl. split; [by rewrite length_fmap |]. split.
  - intros j header Hj. by rewrite list_lookup_fmap, Hj.
  - rewrite Hsort. split.
    + intros Hflag%bool_decide_eq_false. f_equal. by destruct (decide (fh = sh)).
    + intros [= <-]. apply bool_decide_eq_false. auto.
Qed.

Lemma make_file_processing_data_entries_witness :
  ∃ entry,
    data_clients.file_processing_data example_processing !! str "b.csv" = Some entry
    ∧ length (data_clients.header_comparison entry) = 4%nat
    ∧ data_clients.rearrangement_needed entry = false.
Proof.
  destruct (make_file_processing_data_entries
              (data_clients.set_file_processing_data example_processing ∅)
              example_processing 1 (str "b.csv") [str "D1"; str "M1"; str "M2"])
    as (_ & _ & _ & _ & entry & Hentry & Hlen & _ & Hflag).
  - vm_compute. reflexivity.
  - apply (bool_decide_unpack _). vm_compute. exact I.
  - reflexivity.
  - reflexivity.
  - exists entry. split; [exact Hentry |]. split; [exact Hlen |]. by apply Hflag.
Defined.

(** X4. Once [sort_headers] has stored the unified schema,
    [make_file_processing_data] gives a source whose own headers are
    distinct a bitmap as long as the schema with exactly as many true bits
    as the source has columns. *)
Theorem bitmap_counts_columns `{SetOrder} (self self1 self2 : data_clients.ProcessData)
    (i : nat) (name : pystr) (fh : list pystr) :
  data_clients.sort_headers self = Ok self1 →
  data_clients.make_file_processing_data self1 = Ok self2 →
  NoDup (data_clients._file_names self) →
  data_clients._file_names self !! i = Some name →
  data_clients._headers_by_file self !! i = Some fh →
  NoDup fh →
  ∃ entry,
    data_clients.file_processing_data self2 !! name = Some entry
    ∧ length (data_clients.header_comparison entry) = length (data_clients.headers self2)
    ∧ true_bits (data_clients.header_comparison entry) = length fh.
Proof.
  intros Hsort Hmake Hnodup Hname Hfh Hfh_nodup.
  assert (Hunion := Hsort). apply sort_headers_Ok in Hunion.
  assert (Hperm := Hunion). apply sorted_Permutation in Hperm.
  assert (data_clients._file_names self1 = data_clients._file_names self
          ∧ data_clients._headers_by_file self1 = data_clients._headers_by_file self)
    as [Hnames Hhbf].
  { unfold data_clients.sort_headers in Hsort.
    destruct (data_clients._headers_by_file self) eqn:Hlist; [done |].
    rewrite <- Hlist. by apply bind_Ok in Hsort as (hs & _ & [= <-]). }
  rewrite <- Hnames in Hnodup, Hname. rewrite <- Hhbf in Hfh.
  destruct (make_file_processing_data_lookup _ _ _ _ _ Hmake Hnodup Hname Hfh)
    as (-> & sh & _ & Hentry).
  eexists. split; [exact Hentry |]. simpl. split; [by rewrite length_fmap |].
  rewrite true_bits_is_in. apply Permutation_length, NoDup_Permutation; [| done |].
  - apply NoDup_filter. rewrite Hperm. apply set_to_list_NoDup.
  - intros header. rewrite list_elem_of_filter. split; [by intros [? _] |].
    intros Hin. split; [done |].
    rewrite Hperm, elem_of_set_to_list, elem_of_union_headers.
    exists fh. split; [| done]. rewrite <- Hhbf. by eapply list_elem_of_lookup_2.
Qed.

Lemma bitmap_counts_columns_witness :
  ∃ entry,
    data_clients.file_processing_data example_processing !! str "b.csv" = Some entry
    ∧ true_bits (data_clients.header_comparison entry) = 3%nat.
Proof.
  destruct (bitmap_counts_columns
              (data_clients.set_headers
                 (data_clients.set_file_processing_data example_processing ∅) [])
              (data_clients.set_file_processing_data example_processing ∅)
              example_processing 1 (str "b.csv") [str "D1"; str "M1"; str "M2"])
    as (entry & Hentry & _ & Hbits).
  - vm_compute. reflexivity.
  - vm_compute. reflexivity.
  - apply (bool_decide_unpack _). vm_compute. exact I.
  - reflexivity.
  - reflexivity.
  - apply (bool_decide_unpack _). vm_compute. exact I.
  - by exists entry.
Defined.

(** ** Header discovery over the selected files *)
Section DiscoveryFacts.
Import data_clients.

Lemma for_each_concat {A S} (body : S → A → io S) (ls : list (list A)) (s : S) :
  for_each (λ s l, for_each body l s) ls s = for_each body (concat ls) s.
Proof.
  revert s. induction ls as [|l ls IH]; intros s; [done |].
  cbn [for_each concat]. rewrite for_each_app.
  destruct (for_each body l s) as [events [s1|e]]; [| done].
  unfold mbind, io_bind. simpl. by rewrite IH.
Qed.

Lemma get_file_headers_registered (d : file_readers.disk) (self self' : ProcessData)
    (file : pystr) (events : list event) :
  registered file →
  get_file_headers d self file = (events, Ok self') →
  events = []
  ∧ self' = set_headers_by_file (save_file_name self file)
              (_headers_by_file self
                 ++ [file_readers.header_names (d (_path self ++ file))]).
Proof.
  unfold registered, get_file_headers, file_readers.get_file_reader. fold (extension_of file).
  intros [cls ->].
  unfold file_readers.get_headers, file_readers.opened. simpl.
  destruct (endswith file (file_readers.extension cls)); [| by destruct cls].
  by destruct cls; simpl; intros [= <- <-].
Qed.

Lemma get_file_headers_unregistered (d : file_readers.disk) (self : ProcessData)
    (file : pystr) :
  ¬ registered file →
  get_file_headers d self file = ([unsupported_line file], Ok self).
Proof.
  unfold registered, get_file_headers, file_readers.get_file_reader. fold (extension_of file).
  intros Hnone. destruct (file_readers.FileReaderFactory !! extension_of file) eqn:Hget.
  - by destruct Hnone.
  - done.
Qed.

Lemma discovery_Ok (d : file_readers.disk) (files : list pystr) (self self' : ProcessData)
    (events : list event) :
  for_each (get_file_headers d) files self = (events, Ok self') →
  _file_names self' = _file_names self ++ filter registered files
  ∧ _headers_by_file self'
    = _headers_by_file self
        ++ ((λ file, file_readers.header_names (d (_path self ++ file)))
              <$> filter registered files)
  ∧ events = unsupported_line <$> filter (λ file, ¬ registered file) files
  ∧ headers self' = headers self
  ∧ file_processing_data self' = file_processing_data self
  ∧ _path self' = _path self.
Proof.
  revert self events. induction files as [|file files IH]; intros self events.
  - intros [= <- <-]. by rewrite !app_nil_r.
  - cbn [for_each].
    intros (events1 & self1 & events2 & Hfile & Hrest & ->)%io_bind_Ok.
    apply IH in Hrest as (Hnames & Hhbf & -> & Hh & Hdata & Hpath).
    destruct (decide (registered file)) as [Hreg|Hreg].
    + apply get_file_headers_registered in Hfile as [-> ->]; [| done].
      simpl in *. rewrite filter_cons_True by done.
      rewrite (filter_cons_False (λ file, ¬ registered file)) by auto.
      rewrite Hnames, Hhbf. csimpl. by rewrite <- !app_assoc.
    + rewrite get_file_headers_unregistered in Hfile by done.
      injection Hfile as <- <-.
      rewrite filter_cons_False by done.
      by rewrite (filter_cons_True (λ file, ¬ registered file)) by done.
Qed.
End DiscoveryFacts.

(** X5. When [get_all_headers] returns, it has appended, in the order of
    the selection, the names of the files whose extension has a reader and,
    beside each, the headers found in that file under the source path; it
    has printed one error line for every other file, and has touched
    nothing else of the state. *)
Theorem get_all_headers_result (d : file_readers.disk) (self self' : data_clients.ProcessData)
    (files : list (list pystr)) (events : list event) :
  data_clients.get_all_headers d self files = (events, Ok self') →
  data_clients._file_names self'
  = data_clients._file_names self ++ filter registered (concat files)
  ∧ data_clients._headers_by_file self'
    = data_clients._headers_by_file self
        ++ ((λ file, file_readers.header_names (d (data_clients._path self ++ file)))
              <$> filter registered (concat files))
  ∧ events = unsupported_line <$> filter (λ file, ¬ registered file) (concat files)
  ∧ data_clients.headers self' = data_clients.headers self
  ∧ data_clients.file_processing_data self' = data_clients.file_processing_data self
  ∧ data_clients._path self' = data_clients._path self.
Proof.
  unfold data_clients.get_all_headers. rewrite for_each_concat. apply discovery_Ok.
Qed.

Lemma get_all_headers_result_witness :
  ∃ self' events,
    data_clients.get_all_headers example_disk (data_clients.ProcessData_init (str "/in/"))
      [[str "a.csv"; str "notes.txt"]; [str "b.csv"]] = (events, Ok self')
    ∧ data_clients._file_names self' = [str "a.csv"; str "b.csv"]
    ∧ events = [Stdout (str "Error: The extension 'txt' is not supported.")].
Proof.
  eexists _, _. split; [vm_compute; reflexivity |].
  destruct (get_all_headers_result example_disk (data_clients.ProcessData_init (str "/in/"))
              _ [[str "a.csv"; str "notes.txt"]; [str "b.csv"]] _ eq_refl)
    as (Hnames & _ & Hevents & _).
  split.
  - etransitivity; [| exact (eq_trans Hnames eq_refl)]. reflexivity.
  - reflexivity.
Defined.

Section GeneratorFacts.
Import data_clients.

Lemma get_file_headers_line_read (d : file_readers.disk) (self self' : ProcessData)
    (file : pystr) (events : list event) :
  registered file →
  get_file_headers d self file = (events, Ok self') →
  line_read file.
Proof.
  unfold registered, get_file_headers, file_readers.get_file_reader. fold (extension_of file).
  intros [cls Hcls]. rewrite Hcls.
  unfold file_readers.get_headers, file_readers.opened. simpl.
  destruct (endswith file (file_readers.extension cls)) eqn:Hends; [| by destruct cls].
  intros Hget. exists cls. repeat split; [done.. |]. intros ->. done.
Qed.

Lemma discovery_line_read (d : file_readers.disk) (files : list pystr)
    (self self' : ProcessData) (events : list event) :
  for_each (get_file_headers d) files self = (events, Ok self') →
  Forall line_read (filter registered files).
Proof.
  revert self events. induction files as [|file files IH]; intros self events.
  - intros _. constructor.
  - cbn [for_each].
    intros (events1 & self1 & events2 & Hfile & Hrest & ->)%io_bind_Ok.
    apply IH in Hrest. destruct (decide (registered file)) as [Hreg|Hreg].
    + rewrite filter_cons_True by done. constructor; [| done].
      by eapply get_file_headers_line_read.
    + by rewrite filter_cons_False by done.
Qed.

Lemma get_data_generator_line_read (d : file_readers.disk) (self : ProcessData)
    (generators : list file_readers.generator) (file : pystr) (file_headers : list pystr) :
  line_read file →
  get_data_generator d self generators (file, file_headers)
  = ([], Ok (generators
               ++ [Ok (file_readers.record_rows (d (_path self ++ file)))])).
Proof.
  intros (cls & Hcls & Hends & Hjson).
  unfold get_data_generator, file_readers.get_file_reader. fold (extension_of file).
  rewrite Hcls. unfold file_readers.read_record, file_readers.opened. simpl.
  rewrite Hends. by destruct cls.
Qed.

Lemma generators_line_read (d : file_readers.disk) (self : ProcessData)
    (names : list pystr) (file_headers : list (list pystr))
    (generators : list file_readers.generator) :
  Forall line_read names →
  length names = length file_headers →
  for_each (get_data_generator d self) (zip names file_headers) generators
  = ([], Ok (generators
               ++ ((λ file, Ok (file_readers.record_rows (d (_path self ++ file))))
                     <$> names))).
Proof.
  intros Hnames. revert file_headers generators.
  induction Hnames as [|file names Hfile _ IH]; intros [|fh file_headers] generators;
    try done.
  - intros _. simpl. by rewrite app_nil_r.
  - intros [= Hlen]. cbn [zip zip_with for_each].
    eapply io_bind_pure; [by apply get_data_generator_line_read |].
    rewrite IH by done. csimpl. by rewrite <- app_assoc.
Qed.
End GeneratorFacts.

(** ** The factory of generators *)

(** X7. Registering an extension makes the factory of generators answer it
    with the class registered, the file being named directory, name, dot,
    extension, or with the error of unsupported formats when [None] was
    registered; the answer for every other extension stays as it was. *)
Theorem register_get_file_generator (formats : gmap pystr (option file_generators.generator_class))
    (extension : pystr) (file_generator : option file_generators.generator_class)
    (directory file_name asked : pystr) :
  file_generators.get_file_generator
    (file_generators.register formats extension file_generator) directory file_name asked
  = if decide (asked = extension) then
      match file_generator with
      | Some cls =>
          Ok {| file_generators.generator := cls;
                file_generators.file := directory ++ file_name ++ str "." ++ extension |}
      | None => Raise (ValueError (file_generators.not_supported extension))
      end
    else file_generators.get_file_generator formats directory file_name asked.
Proof.
  unfold file_generators.get_file_generator, file_generators.register.
  destruct (decide (asked = extension)) as [->|Hne].
  - rewrite lookup_insert_eq. by destruct file_generator.
  - by rewrite lookup_insert_ne.
Qed.

(** ** Sorting the buffer *)

Section BufferFacts.
Import data_clients.

Lemma record_lt_Raise (a b : record) (e : exn) : record_lt a b = Raise e → e = TypeError.
Proof.
  unfold record_lt. revert b. induction a as [|x a IH]; intros [|y b]; simpl; try done.
  destruct (decide (x = y)); [apply IH |].
  destruct x as [s|], y as [t|]; simpl; try by intros [= <-].
  by destruct (str_lt_total s t) as [r ->].
Qed.

Lemma sort_records_Raise (n : nat) (sorting : list record) (e : exn) :
  sort_records n sorting = Raise e → e = TypeError.
Proof.
  unfold sort_records, sorted.
  destruct (comprehension_total (λ data : record, Ok (take n data)) sorting) as [keys ->].
  { apply Forall_forall. by eexists. }
  simpl. destruct (sort_decorated record_lt (zip keys sorting)) as [s|e'] eqn:Hs; [done |].
  simpl. intros [= ->].
  apply sort_decorated_Raise in Hs as (x & y & _ & _ & Hlt). by eapply record_lt_Raise.
Qed.

Lemma record_lt_present (a b : record) :
  Forall is_Some a → Forall is_Some b → ∃ r, record_lt a b = Ok r.
Proof.
  unfold record_lt. intros Ha. revert b.
  induction Ha as [|x a [s ->] _ IH]; intros b Hb; destruct Hb as [|y b [t ->] Hb]; simpl;
    try by eexists.
  destruct (decide (Some s = Some t)); [by apply IH | apply str_lt_total].
Qed.

Lemma record_lt_absent (a b : record) (j : nat) (s : pystr) :
  take j a = take j b → a !! j = Some None → b !! j = Some (Some s) →
  record_lt a b = Raise TypeError.
Proof.
  unfold record_lt. revert a b. induction j as [|j IH]; intros [|x a] [|y b]; simpl; try done.
  - by intros _ [= ->] [= ->].
  - intros [= -> Htake] Ha Hb. rewrite decide_True by done. by apply IH.
Qed.
End BufferFacts.

(** X8. A buffer in which every record has all of its first [n] cells
    present is sorted: the sort returns the same records, none smaller on
    these columns than a record before it. *)
Theorem sort_records_present_keys (n : nat) (sorting : list record) :
  Forall (λ data, Forall is_Some (take n data)) sorting →
  ∃ batch, data_clients.sort_records n sorting = Ok batch
           ∧ batch ≡ₚ sorting
           ∧ sorted_by_columns n batch.
Proof.
  intros Hpresent.
  destruct (proj2 (sort_records_returns n sorting)) as [batch Hbatch].
  { intros a b Ha Hb. rewrite Forall_forall in Hpresent.
    apply record_lt_present; by apply Hpresent. }
  exists batch. split; [done |]. split.
  - by eapply sort_records_Permutation.
  - by eapply sort_records_sorted.
Qed.

Lemma sort_records_present_keys_witness :
  ∃ batch,
    data_clients.sort_records 2
      [[Some (str "2"); Some (str "b"); None]; [Some (str "1"); Some (str "a"); None]]
    = Ok batch
    ∧ sorted_by_columns 2 batch.
Proof.
  destruct (sort_records_present_keys 2
              [[Some (str "2"); Some (str "b"); None]; [Some (str "1"); Some (str "a"); None]])
    as (batch & Hbatch & _ & Hsorted).
  - repeat constructor; by eexists.
  - by exists batch.
Defined.

(** X9. A buffer holding two records that agree on the columns before
    column [j], one of the first [n], where one has no cell and the other
    has one, is not sorted: the sort raises a type error, and a type error
    is all a sort of the buffer ever raises. *)
Theorem sort_records_absent_cell (n j : nat) (sorting : list record) (a b : record)
    (s : pystr) :
  a ∈ sorting → b ∈ sorting → (j < n)%nat →
  take j a = take j b → a !! j = Some None → b !! j = Some (Some s) →
  data_clients.sort_records n sorting = Raise TypeError
  ∧ ∀ (others : list record) e, data_clients.sort_records n others = Raise e → e = TypeError.
Proof.
  intros Ha Hb Hj Htake Haj Hbj. split; [| intros others e; apply sort_records_Raise].
  destruct (data_clients.sort_records n sorting) as [batch|e] eqn:Hsort.
  - destruct (proj1 (sort_records_returns n sorting) (ex_intro _ batch Hsort) a b Ha Hb)
      as [r Hr].
    rewrite (record_lt_absent (take n a) (take n b) j s) in Hr; [done | | |].
    + rewrite !take_take. replace (j `min` n)%nat with j by lia. done.
    + by rewrite lookup_take_lt.
    + by rewrite lookup_take_lt.
  - f_equal. by eapply sort_records_Raise.
Qed.

Lemma sort_records_absent_cell_witness :
  data_clients.sort_records 3
    [[Some (str "1"); Some (str "2"); Some (str "x"); None];
     [Some (str "1"); None; Some (str "y"); Some (str "z")]]
  = Raise TypeError.
Proof.
  apply (sort_records_absent_cell 3 1 _
           [Some (str "1"); None; Some (str "y"); Some (str "z")]
           [Some (str "1"); Some (str "2"); Some (str "x"); None] (str "2")).
  - apply (bool_decide_unpack _). vm_compute. exact I.
  - apply (bool_decide_unpack _). vm_compute. exact I.
  - lia.
  - reflexivity.
  - reflexivity.
  - reflexivity.
Defined.

(** ** The width of the merged records *)
Section WidthFacts.
Import functions data_clients.

Lemma collect_width (self : ProcessData) (k index : nat)
    (data_tuple : list (option (list pystr))) (sorting out : list record) :
  map_Forall (λ _ entry, length (header_comparison entry) = k) (file_processing_data self) →
  collect self index data_tuple sorting = Ok out →
  Forall (λ data : record, (k ≤ length data)%nat) sorting →
  Forall (λ data : record, (k ≤ length data)%nat) out.
Proof.
  intros Hmap. revert index sorting.
  induction data_tuple as [|data data_tuple IH]; intros index sorting; simpl.
  - by intros [= <-].
  - intros (sorting' & Hone & Hrest)%bind_Ok Hsorting.
    eapply IH; [exact Hrest |].
    destruct data as [data|]; [| by injection Hone as <-].
    apply bind_Ok in Hone as (file_name & Hname & Hone).
    apply bind_Ok in Hone as (entry & Hentry & Hone).
    apply bind_Ok in Hone as (data' & _ & Hone).
    apply bind_Ok in Hone as (completed & Hcompleted & [= <-]).
    apply Forall_app. split; [done |]. constructor; [| done].
    unfold subscript in Hname. destruct (_file_names self !! index) eqn:Hi; [| done].
    injection Hname as ->.
    unfold item in Hentry. destruct (file_processing_data self !! file_name) eqn:Hf; [| done].
    injection Hentry as ->.
    rewrite (complete_record_length _ _ _ _ _ _ Hi Hf Hcompleted).
    rewrite (Hmap _ _ Hf). lia.
Qed.
End WidthFacts.

(** X10. When [process_data] returns for a [ProcessData] whose dictionary
    of files was empty, every record of the batches it flushed and of the
    batch it returns has at least as many cells as the unified schema has
    columns. *)
Theorem merged_records_cover_schema (d : file_readers.disk)
    (self self' : data_clients.ProcessData) (events : list event) (flag : bool)
    (final : list record) :
  data_clients.process_data d self = (events, Ok (self', (flag, final))) →
  data_clients.file_processing_data self = ∅ →
  ∃ batches,
    events = (data_clients.get_data_generators d self).1
             ++ concat (flush_events self' <$> batches)
    ∧ Forall (λ data : record, (length (data_clients.headers self) ≤ length data)%nat)
        (concat batches ++ final).
Proof.
  intros Hrun Hempty.
  assert (Hmake := Hrun).
  apply process_data_Ok in Hmake
    as (_ & _ & _ & _ & _ & _ & _ & _ & Hmake & _).
  apply process_data_keeps_records in Hrun
    as (gens & its & outs & batches & _ & _ & Houts & -> & Hkeep & _).
  exists batches. split; [done |]. rewrite Hkeep. apply Forall_concat.
  apply make_file_processing_data_lengths in Hmake; [| done].
  clear -Houts Hmake. induction Houts as [|data_tuple out ? ? Hout _ IH]; constructor; [| done].
  eapply collect_width; [exact Hmake | exact Hout | constructor].
Qed.

Lemma merged_records_cover_schema_witness :
  ∃ self' final,
    (data_clients.process_data example_disk reordered_processing).2
    = Ok (self', (false, final))
    ∧ length final = 3%nat
    ∧ Forall (λ data : record, (3 ≤ length data)%nat) final.
Proof.
  assert (∃ events self' final,
            data_clients.process_data example_disk reordered_processing
            = (events, Ok (self', (false, final))) ∧ length final = 3%nat)
    as (events & self' & final & Hrun & Hlen).
  { eexists _, _, _. split; [vm_compute; reflexivity | reflexivity]. }
  exists self', final. split; [by rewrite Hrun |]. split; [done |].
  destruct (merged_records_cover_schema _ _ _ _ _ _ Hrun eq_refl) as (batches & _ & Hwidth).
  apply Forall_app in Hwidth as [_ Hwidth]. exact Hwidth.
Defined.

(** ** Records reordered like their headers *)
Section SortPayload.
Context {A B K : Type} (lt : K → K → result bool) (f : A → B).

Local Abbreviation relabel := (prod_map (@id K) f).

Lemma insert_sorted_payload (x : K * A) (l : list (K * A)) :
  insert_sorted lt (relabel x) (relabel <$> l)
  = (λ s : list (K * A), relabel <$> s) <$> insert_sorted lt x l.
Proof.
  induction l as [|y l IH]; csimpl; [done |].
  destruct (lt y.1 x.1) as [[]|e]; simpl; [| done | done].
  rewrite IH. by destruct (insert_sorted lt x l).
Qed.

Lemma sort_decorated_payload (l : list (K * A)) :
  sort_decorated lt (relabel <$> l)
  = (λ s : list (K * A), relabel <$> s) <$> sort_decorated lt l.
Proof.
  induction l as [|x l IH]; csimpl; [done |].
  rewrite IH. destruct (sort_decorated lt l) as [s|e]; simpl; [| done].
  apply insert_sorted_payload.
Qed.

Lemma zip_payload (keys : list K) (l : list A) :
  zip keys (f <$> l) = relabel <$> zip keys l.
Proof.
  revert l. induction keys as [|k keys IH]; intros [|x l]; csimpl; [done.. |].
  by rewrite IH.
Qed.
End SortPayload.

Lemma comprehension_fmap {A B C} (g : A → B) (key : B → result C) (l : list A) :
  comprehension (λ x, key (g x)) l = comprehension key (g <$> l).
Proof. induction l as [|x l IH]; csimpl; [done |]. by rewrite IH. Qed.

Lemma zip_undecorate {K A B} (sc : list (K * (A * B))) :
  zip ((prod_map id fst <$> sc).*2) (sc.*2.*2) = sc.*2.
Proof. induction sc as [|[k [h c]] sc IH]; csimpl; [done |]. by rewrite IH. Qed.

(** X11. Where [sort_alphanumeric] sorts the headers of a file, none of
    them left without a cell, [order_record] returns for its records, and
    the cell it puts at a place is a cell that stood under the header
    [sort_alphanumeric] puts at that place: the pairs of sorted header and
    ordered cell are the pairs of header and cell of the file. *)
Theorem order_record_follows_headers (record headers sorted_headers : list pystr) :
  functions.sort_alphanumeric headers false = Ok sorted_headers →
  (length headers ≤ length record)%nat →
  headers ≠ [] →
  ∃ ordered,
    functions.order_record record headers = Ok ordered
    ∧ length ordered = length sorted_headers
    ∧ zip sorted_headers ordered ≡ₚ zip headers record.
Proof.
  unfold functions.sort_alphanumeric, functions.order_record, sorted.
  intros Hsort Hlen Hne.
  rewrite (comprehension_fmap fst functions.alphanum_key), fst_zip by done.
  apply bind_Ok in Hsort as (keys & Hkeys & Hsort). rewrite Hkeys. simpl.
  apply bind_Ok in Hsort as (sd & Hsd & [= <-]).
  rewrite <- (fst_zip headers record) in Hsd at 1 by done.
  rewrite (zip_payload fst), sort_decorated_payload in Hsd.
  apply fmap_Ok in Hsd as (sc & Hsc & ->). rewrite Hsc. simpl.
  assert (sc.*2 ≡ₚ zip headers record) as Hperm.
  { apply sort_decorated_Permutation in Hsc. rewrite Hsc. rewrite snd_zip; [done |].
    apply comprehension_Ok, Forall2_length in Hkeys.
    rewrite length_zip_with. lia. }
  destruct (sc.*2) as [|pair couple] eqn:Hcouple.
  - apply Permutation_nil_l in Hperm. destruct headers, record; simpl in *; (done || lia).
  - eexists. split; [done |]. rewrite <- Hcouple. split.
    + by rewrite !length_fmap.
    + by rewrite zip_undecorate, Hcouple.
Qed.

Lemma order_record_follows_headers_witness :
  ∃ ordered,
    functions.order_record [str "x"; str "2"; str "1"] [str "M1"; str "D2"; str "D1"]
    = Ok ordered
    ∧ zip [str "D1"; str "D2"; str "M1"] ordered
      ≡ₚ [(str "M1", str "x"); (str "D2", str "2"); (str "D1", str "1")].
Proof.
  destruct (order_record_follows_headers [str "x"; str "2"; str "1"]
              [str "M1"; str "D2"; str "D1"] [str "D1"; str "D2"; str "M1"])
    as (ordered & Hordered & _ & Hpairs).
  - vm_compute. reflexivity.
  - simpl. lia.
  - done.
  - by exists ordered.
Defined.

(** ** The selection of the files *)
Section SelectionFacts.
Import file_selection.

Lemma starts_with_app (sub s : pystr) : starts_with sub (sub ++ s) = true.
Proof. induction sub as [|c sub IH]; simpl; [done |]. by rewrite N.eqb_refl. Qed.

Lemma starts_with_elem_of (sub s : pystr) (c : N) :
  starts_with sub s = true → c ∈ sub → c ∈ s.
Proof.
  revert s. induction sub as [|d sub IH]; intros [|e s]; simpl; try done.
  - by intros _ ?%elem_of_nil.
  - intros [->%N.eqb_eq Hsub]%andb_true_iff [->|Hc]%elem_of_cons; [by left |].
    right. by apply IH.
Qed.

Lemma contains_elem_of (sub s : pystr) (c : N) :
  contains sub s = true → c ∈ sub → c ∈ s.
Proof.
  induction s as [|d s IH]; simpl.
  - rewrite orb_false_r. apply starts_with_elem_of.
  - intros [Hsub|Hsub]%orb_true_iff Hc; [by eapply starts_with_elem_of |].
    right. by apply IH.
Qed.

Lemma replace_from_absent (old new s : pystr) :
  contains old s = false → replace_from old new 0 s = s.
Proof.
  induction s as [|c s IH]; [done |]. cbn [contains replace_from].
  intros [-> Hs]%orb_false_iff. by rewrite IH.
Qed.

Lemma replace_from_skip (old new pre s : pystr) :
  replace_from old new (length pre) (pre ++ s) = replace_from old new 0 s.
Proof. induction pre as [|c pre IH]; [done |]. exact IH. Qed.

Lemma replace_prefix (old s : pystr) :
  contains old s = false → replace old [] (old ++ s) = s.
Proof.
  destruct old as [|c old]; [by destruct s |].
  intros Hs. unfold replace.
  pose proof (starts_with_app (c :: old) s) as Hstart. cbn [app] in Hstart.
  cbn [app replace_from]. rewrite Hstart.
  replace (length (c :: old) - 1)%nat with (length old) by (simpl; lia). simpl.
  by rewrite replace_from_skip, replace_from_absent.
Qed.

Lemma clean_file_path_names (path : pystr) (names : list pystr) :
  47 ∈ path → Forall (λ name, 47 ∉ name) names →
  clean_file_path path ((λ name, path ++ name) <$> names) = names.
Proof.
  intros Hpath Hnames. unfold clean_file_path. rewrite <- list_fmap_compose.
  rewrite <- (list_fmap_id names) at 2. apply Forall_fmap_ext_1.
  eapply Forall_impl; [exact Hnames |]. intros name Hname. simpl.
  apply replace_prefix. destruct (contains path name) eqn:Hin; [| done].
  destruct Hname. by eapply contains_elem_of.
Qed.

Lemma are_there_files_filter (list_csv list_json list_xml : list pystr) (path : pystr) :
  are_there_files list_csv list_json list_xml path
  = clean_file_path path <$> filter (λ group, group ≠ []) [list_csv; list_json; list_xml].
Proof. by destruct list_csv, list_json, list_xml. Qed.

Lemma clean_groups (path : pystr) (groups : list (list pystr)) :
  47 ∈ path → Forall (Forall (λ name, 47 ∉ name)) groups →
  clean_file_path path
    <$> filter (λ group, group ≠ [])
          ((λ names : list pystr, (λ name, path ++ name) <$> names) <$> groups)
  = filter (λ group, group ≠ []) groups.
Proof.
  intros Hpath. induction 1 as [|names groups Hnames _ IH]; [done |]. csimpl.
  destruct names as [|name names].
  - by rewrite !filter_cons_False by auto.
  - rewrite !filter_cons_True by done. csimpl. rewrite IH. f_equal.
    by apply (clean_file_path_names path (name :: names)).
Qed.
End SelectionFacts.

(** X12. For a directory path holding a slash, and a listing that gives
    under it names without a slash, [get_files] returns the names without
    the path, in the groups of the extensions csv, json and xml, in this
    order, an extension without a file having no group. *)
Theorem get_files_names (glob : pystr → list pystr) (path : pystr)
    (names_csv names_json names_xml : list pystr) :
  47 ∈ path →
  Forall (Forall (λ name, 47 ∉ name)) [names_csv; names_json; names_xml] →
  lists glob path "csv" names_csv →
  lists glob path "json" names_json →
  lists glob path "xml" names_xml →
  file_selection.get_files glob path
  = filter (λ group, group ≠ []) [names_csv; names_json; names_xml].
Proof.
  intros Hpath Hnames Hcsv Hjson Hxml. unfold file_selection.get_files.
  rewrite (Hcsv : glob (path ++ str "*.csv") = _), (Hjson : glob (path ++ str "*.json") = _),
    (Hxml : glob (path ++ str "*.xml") = _).
  rewrite are_there_files_filter. by apply (clean_groups path [_; _; _]).
Qed.

Lemma get_files_names_witness :
  file_selection.get_files
    (λ pattern, if decide (pattern = str "/in/*.csv") then [str "/in/a.csv"; str "/in/b.csv"]
                else if decide (pattern = str "/in/*.xml") then [str "/in/x.xml"]
                else [])
    (str "/in/")
  = [[str "a.csv"; str "b.csv"]; [str "x.xml"]].
Proof.
  apply (get_files_names _ (str "/in/") [str "a.csv"; str "b.csv"] [] [str "x.xml"]).
  - apply (bool_decide_unpack _). vm_compute. exact I.
  - repeat constructor; apply (bool_decide_unpack _); vm_compute; exact I.
  - reflexivity.
  - reflexivity.
  - reflexivity.
Defined.

(** X13. [are_there_files] never gives an empty group; its groups hold, in
    the order csv, json, xml, the cleaned names of all the files given, and
    it gives no group exactly when the three lists are empty. *)
Theorem are_there_files_groups (list_csv list_json list_xml : list pystr) (path : pystr) :
  Forall (λ group, group ≠ [])
    (file_selection.are_there_files list_csv list_json list_xml path)
  ∧ concat (file_selection.are_there_files list_csv list_json list_xml path)
    = file_selection.clean_file_path path (list_csv ++ list_json ++ list_xml)
  ∧ (file_selection.are_there_files list_csv list_json list_xml path = []
     ↔ list_csv = [] ∧ list_json = [] ∧ list_xml = []).
Proof.
  unfold file_selection.clean_file_path. split; [| split].
  - destruct list_csv, list_json, list_xml; by repeat constructor.
  - rewrite !fmap_app.
    destruct list_csv, list_json, list_xml; csimpl; by rewrite ?app_nil_r.
  - destruct list_csv, list_json, list_xml; split; (done || by intros (? & ? & ?)).
Qed.

(** ** The menu *)
Section MenuFacts.
Import menu_functions.
Context (lower strip : pystr → pystr).

Lemma endswith_last (s : pystr) (c : N) : endswith (s ++ [c]) [c] = true.
Proof. unfold endswith. rewrite reverse_app. simpl. by rewrite N.eqb_refl. Qed.

Lemma select_directory_Returned (n : nat) (stdin : list pystr) (events : list console_event)
    (path : pystr) (rest : list pystr) :
  (length stdin ≤ n)%nat →
  select_directory lower strip stdin = (events, Returned path, rest) →
  endswith path [47] = true ∧ ∃ read, stdin = read ++ rest ∧ read ≠ [].
Proof.
  revert stdin events. induction n as [|n IH]; intros [|use_path stdin1] events Hn;
    simpl in Hn; try lia; try done.
  cbn [select_directory].
  destruct (decide (strip (lower use_path) = str "y")) as [Hyes|Hno].
  { intros [= <- <- <-]. split; [done |]. by exists [use_path]. }
  destruct stdin1 as [|directory_path stdin2]; [done |].
  destruct (negb (contains [47] (strip directory_path))
            && negb (contains [92] (strip directory_path))).
  - destruct stdin2 as [|retry stdin3]; [done |].
    destruct (decide (strip (lower retry) = str "y")) as [Hretry|Hretry]; [| done].
    unfold after.
    destruct (select_directory lower strip stdin3) as [[events' ended] rest'] eqn:Hrec.
    simpl. intros [= <- -> ->].
    apply IH in Hrec as [Hpath (read & -> & _)]; [| simpl in Hn; lia].
    split; [done |]. by exists (use_path :: directory_path :: retry :: read).
  - intros [= <- <- <-]. split.
    + destruct (endswith (strip directory_path) [47]) eqn:Hends; [done |].
      apply endswith_last.
    + by exists [use_path; directory_path].
Qed.

End MenuFacts.

(** X14. When [get_files_from_dir] returns, the path it returns ends with
    a slash, whatever was typed; it has read at least one line; and the
    files it returns beside the path are [None] or groups none of which is
    empty, at least one. *)
Theorem get_files_from_dir_result (lower strip : pystr → pystr) (glob : pystr → list pystr)
    (stdin rest : list pystr) (events : list menu_functions.console_event)
    (path : pystr) (data_files : option (list (list pystr))) :
  file_selection.get_files_from_dir lower strip glob stdin
  = (events, menu_functions.Returned (path, data_files), rest) →
  endswith path [47] = true
  ∧ (∃ read, stdin = read ++ rest ∧ read ≠ [])
  ∧ ∀ files, data_files = Some files → files ≠ [] ∧ Forall (λ group, group ≠ []) files.
Proof.
  unfold file_selection.get_files_from_dir.
  destruct (menu_functions.select_directory lower strip stdin) as [[events' ended] rest'] eqn:Hsel.
  destruct ended as [path'| |]; [| done | done]. intros [= <- <- Hfiles <-].
  apply (select_directory_Returned _ _ (length stdin)) in Hsel as [Hpath Hread]; [| done].
  split; [done |]. split; [done |]. intros files ->.
  destruct (length (file_selection.get_files glob path') =? 0)%nat eqn:Hlen; [done |].
  injection Hfiles as <-. split.
  - intros Hnil. by rewrite Hnil in Hlen.
  - unfold file_selection.get_files. rewrite are_there_files_filter.
    apply Forall_fmap, Forall_forall. intros group [Hne _]%list_elem_of_filter. simpl.
    unfold file_selection.clean_file_path. by destruct group.
Qed.

Lemma get_files_from_dir_result_witness :
  ∃ path, endswith path [47] = true
          ∧ (file_selection.get_files_from_dir (λ s, s) (λ s, s) (λ _, [])
               [str "n"; str "/srv/in"; str "2"]).1.2
            = menu_functions.Returned (path, None).
Proof.
  exists (str "/srv/in/").
  split; [| reflexivity].
  eapply (get_files_from_dir_result (λ s, s) (λ s, s) (λ _, [])
            [str "n"; str "/srv/in"; str "2"]).
  reflexivity.
Defined.

(** X15. [get_option_user] returns 1, 2 or 3 only: the number the first
    line holds that holds one of them. For every line before it, which was
    no number or a number out of this range, it has printed the message of
    that line, and nothing else. *)
Theorem get_option_user_range (strip : pystr → pystr) (int_literal : pystr → option Z)
    (stdin rest : list pystr) (events : list menu_functions.console_event) (chosen : Z) :
  menu_functions.get_option_user strip int_literal stdin
  = (events, menu_functions.Returned chosen, rest) →
  (1 ≤ chosen ≤ 3)%Z
  ∧ ∃ rejected line,
      stdin = rejected ++ line :: rest
      ∧ int_literal (strip line) = Some chosen
      ∧ Forall (λ line, ∀ n, int_literal (strip line) = Some n → (n ≤ 0 ∨ 3 < n)%Z) rejected
      ∧ printed events = rejection strip int_literal <$> rejected.
Proof.
  revert events. induction stdin as [|line stdin IH]; intros events; [done |].
  cbn [menu_functions.get_option_user].
  destruct (int_literal (strip line)) as [n|] eqn:Hline.
  - destruct ((n <=? 0)%Z || (3 <? n)%Z) eqn:Hrange.
    + unfold menu_functions.after.
      destruct (menu_functions.get_option_user strip int_literal stdin) as [[events' ended] rest'] eqn:Hrec.
      simpl. intros [= <- -> ->].
      destruct (IH _ eq_refl) as (Hchosen & rejected & line' & -> & Hline' & Hrej & Hprinted).
      split; [done |]. exists (line :: rejected), line'. repeat split; try done.
      * constructor; [| done]. intros m. rewrite Hline. intros [= <-].
        apply orb_true_iff in Hrange as [?%Z.leb_le|?%Z.ltb_lt]; lia.
      * csimpl. unfold rejection at 1. rewrite Hline. f_equal. exact Hprinted.
    + intros [= <- <- <-]. apply orb_false_iff in Hrange as [?%Z.leb_gt ?%Z.ltb_ge].
      split; [lia |]. by exists [], line.
  - unfold menu_functions.after.
    destruct (menu_functions.get_option_user strip int_literal stdin) as [[events' ended] rest'] eqn:Hrec.
    simpl. intros [= <- -> ->].
    destruct (IH _ eq_refl) as (Hchosen & rejected & line' & -> & Hline' & Hrej & Hprinted).
    split; [done |]. exists (line :: rejected), line'. repeat split; try done.
    + constructor; [| done]. intros m. by rewrite Hline.
    + csimpl. unfold rejection at 1. rewrite Hline. f_equal. exact Hprinted.
Qed.

Lemma get_option_user_range_witness :
  ∃ events,
    menu_functions.get_option_user (λ s, s)
      (λ s, if decide (s = str "2") then Some 2%Z
            else if decide (s = str "7") then Some 7%Z else None)
      [str "x"; str "7"; str "2"; str "y"]
    = (events, menu_functions.Returned 2%Z, [str "y"])
    ∧ length (printed events) = 2%nat.
Proof.
  eexists. split; [reflexivity |].
  edestruct (get_option_user_range (λ s, s)
               (λ s, if decide (s = str "2") then Some 2%Z
                     else if decide (s = str "7") then Some 7%Z else None)
               [str "x"; str "7"; str "2"; str "y"] [str "y"])
    as (_ & rejected & line & Hstdin & _ & _ & ->); [reflexivity |].
  assert (length ([str "x"; str "7"; str "2"; str "y"] : list pystr)
          = length (rejected ++ line :: [str "y"])) as Hlen by (by rewrite <- Hstdin).
  rewrite length_app in Hlen. simpl in Hlen. rewrite length_fmap. lia.
Defined.

(** ** The decoders of lines *)
Section LineFacts.
Import line_readers.

Lemma lstrip_absent (chars s : pystr) : Forall (λ c, c ∉ chars) s → lstrip chars s = s.
Proof. intros [|c s' Hc _]; simpl; [done |]. by rewrite bool_decide_eq_false_2. Qed.

Lemma rstrip_absent (chars s : pystr) : Forall (λ c, c ∉ chars) s → rstrip chars s = s.
Proof.
  intros Hs. unfold rstrip. rewrite lstrip_absent; [apply reverse_involutive |].
  by apply Forall_reverse.
Qed.

Lemma rstrip_newline (s : pystr) : rstrip [10] (s ++ [10]) = rstrip [10] s.
Proof. unfold rstrip. by rewrite reverse_app. Qed.

Lemma rsplit_absent (sep : N) (s : pystr) : sep ∉ s → rsplit sep s = [s].
Proof.
  induction s as [|c s IH]; [done |]. intros [Hc Hs]%not_elem_of_cons. simpl.
  rewrite (proj2 (N.eqb_neq c sep)) by done. by rewrite IH.
Qed.

Lemma rsplit_app (sep : N) (piece rest : pystr) :
  sep ∉ piece → rsplit sep (piece ++ sep :: rest) = piece :: rsplit sep rest.
Proof.
  induction piece as [|c piece IH]; simpl.
  - by rewrite N.eqb_refl.
  - intros [Hc Hpiece]%not_elem_of_cons.
    rewrite (proj2 (N.eqb_neq c sep)) by done. by rewrite IH.
Qed.

Lemma rsplit_join (sep : N) (pieces : list pystr) :
  pieces ≠ [] → Forall (λ piece, sep ∉ piece) pieces →
  rsplit sep (join [sep] pieces) = pieces.
Proof.
  intros Hne Hpieces. induction Hpieces as [|piece pieces Hpiece Hpieces IH]; [done |].
  destruct pieces as [|piece' pieces]; simpl.
  - by apply rsplit_absent.
  - rewrite rsplit_app by done. f_equal. by apply IH.
Qed.

Lemma elem_of_join (sep : pystr) (pieces : list pystr) (c : N) :
  c ∈ join sep pieces → c ∈ sep ∨ ∃ piece, piece ∈ pieces ∧ c ∈ piece.
Proof.
  induction pieces as [|piece pieces IH]; [by intros ?%elem_of_nil |].
  destruct pieces as [|piece' pieces].
  - simpl. intros Hc. right. exists piece. split; [by left | done].
  - change (join sep (piece :: piece' :: pieces))
      with (piece ++ sep ++ join sep (piece' :: pieces)).
    rewrite !elem_of_app. intros [Hc|[Hc|Hc]].
    + right. exists piece. split; [by left | done].
    + by left.
    + destruct (IH Hc) as [?|(p & Hp & Hcp)]; [by left |].
      right. exists p. split; [by right | done].
Qed.

Lemma cells_csv_line (row : list pystr) (line : pystr) :
  csv_line row line → row ≠ [] → Forall plain_cell row → cells line = row.
Proof.
  intros Hline Hne Hrow. unfold cells, split.
  assert (rstrip [10] line = join [44] row) as ->.
  { assert (rstrip [10] (join [44] row) = join [44] row) as Hjoin.
    { apply rstrip_absent, Forall_forall. intros c Hc ->%list_elem_of_singleton.
      apply elem_of_join in Hc as [Hc|(cell & Hcell & Hc)].
      - by apply list_elem_of_singleton in Hc.
      - rewrite Forall_forall in Hrow. by destruct (Hrow cell Hcell) as [_ []]. }
    destruct Hline as [->| ->]; [done |]. by rewrite rstrip_newline. }
  apply rsplit_join; [done |]. eapply Forall_impl; [exact Hrow |]. by intros cell [? _].
Qed.

Lemma rsplit_length (sep : N) (s : pystr) :
  length (rsplit sep s) = S (length (filter (λ c, c = sep) s)).
Proof.
  induction s as [|c s IH]; [done |]. simpl.
  destruct (N.eqb_spec c sep) as [->|Hne].
  - rewrite filter_cons_True by done. simpl. by rewrite IH.
  - rewrite filter_cons_False by done.
    destruct (rsplit sep s) as [|piece pieces]; [done | exact IH].
Qed.
End LineFacts.

(** X16. A delimited file whose first line holds the names of the columns
    and whose other lines hold the rows, the cells joined by commas, every
    line with or without its newline, is decoded to what it holds:
    [get_headers] gives the names and [read_record] yields the rows, for
    names and cells without comma and newline and lines of one cell at
    least. *)
Theorem csv_round_trip (names : list pystr) (rows : list (list pystr)) (file : list pystr) :
  Forall2 csv_line (names :: rows) file →
  Forall (λ row, row ≠ [] ∧ Forall plain_cell row) (names :: rows) →
  line_readers.CSV_get_headers file = names
  ∧ line_readers.CSV_read_record file = (rows, line_readers.Exhausted).
Proof.
  intros Hfile Hrows.
  destruct file as [|first file]; [by apply Forall2_nil_inv_r in Hfile |].
  apply Forall2_cons_1 in Hfile as [Hfirst Hfile].
  apply Forall_cons in Hrows as [[Hne Hnames] Hrows].
  split; [by apply cells_csv_line |]. simpl. f_equal.
  clear -Hfile Hrows. induction Hfile as [|row line rows file Hline _ IH]; [done |].
  apply Forall_cons in Hrows as [[Hne Hrow] Hrows]. csimpl.
  rewrite IH by done. f_equal. by apply cells_csv_line.
Qed.

Lemma csv_round_trip_witness :
  line_readers.CSV_get_headers
    [str "D1,M1" ++ [10]; str "1,x" ++ [10]; str "2,"]
  = [str "D1"; str "M1"]
  ∧ line_readers.CSV_read_record
      [str "D1,M1" ++ [10]; str "1,x" ++ [10]; str "2,"]
    = ([[str "1"; str "x"]; [str "2"; []]], line_readers.Exhausted).
Proof.
  apply (csv_round_trip [str "D1"; str "M1"] [[str "1"; str "x"]; [str "2"; []]]).
  - repeat constructor; by (left + right).
  - repeat constructor; try done; apply (bool_decide_unpack _); vm_compute; exact I.
Defined.

(** X17. On a file without a line, [get_headers] of the delimited files
    gives one column with the empty name and the generator of
    [read_record] ends with a runtime error before its first record. On
    any other file it yields one record for every line after the first and
    then ends, and a record has one cell more than its line has commas: a
    line that is blank gives a record of one empty cell. *)
Theorem csv_reader_shape :
  line_readers.CSV_get_headers [] = [[]]
  ∧ line_readers.CSV_read_record [] = ([], line_readers.RaisedRuntimeError)
  ∧ ∀ first file,
      ∃ records,
        line_readers.CSV_read_record (first :: file) = (records, line_readers.Exhausted)
        ∧ Forall2 (λ line cells, length cells = S (commas line)) file records.
Proof.
  split; [done |]. split; [done |]. intros first file. eexists. split; [done |].
  induction file as [|line file IH]; csimpl; constructor; [| done].
  apply rsplit_length.
Qed.

Section XMLFacts.
Import line_readers.

Lemma read_lines_cells (self : XMLFileReader) (file : list pystr) (start_data : bool)
    (captured_records : list pystr) :
  Forall (λ cell, length cell = 1%nat) captured_records →
  Forall (Forall (λ cell, length cell = 1%nat))
    (read_lines self start_data captured_records file).1.
Proof.
  revert start_data captured_records.
  induction file as [|line file IH]; intros start_data captured_records Hcaptured;
    cbn [read_lines]; [constructor |].
  destruct (contains (str "<" ++ _parent self) line); [by apply IH |].
  destruct (start_data && contains (str "<" ++ _value self ++ str ">") line).
  - destruct (line !! Z.to_nat (find 62 line + 1)) as [c|]; [| constructor].
    apply IH, Forall_app. split; [done |]. by repeat constructor.
  - destruct (contains (str "</" ++ _parent self) line); [| by apply IH].
    simpl. constructor; [done |]. apply IH. constructor.
Qed.

Lemma starts_with_app_l (sub s1 s2 : pystr) :
  starts_with sub s1 = true → starts_with sub (s1 ++ s2) = true.
Proof.
  revert s1. induction sub as [|c sub IH]; intros [|d s1]; simpl; try done.
  intros [-> Hsub]%andb_true_iff. by rewrite IH.
Qed.

Lemma contains_app_l (sub s1 s2 : pystr) :
  contains sub s1 = true → contains sub (s1 ++ s2) = true.
Proof.
  induction s1 as [|c s1 IH].
  - simpl. rewrite orb_false_r. destruct sub; [| done]. by destruct s2.
  - change (contains sub (c :: s1))
      with (starts_with sub (c :: s1) || contains sub s1).
    change (contains sub ((c :: s1) ++ s2))
      with (starts_with sub ((c :: s1) ++ s2) || contains sub (s1 ++ s2)).
    intros [Hsub|Hsub]%orb_true_iff.
    + by rewrite (starts_with_app_l sub (c :: s1) s2 Hsub).
    + rewrite IH by done. apply orb_true_r.
Qed.

Lemma contains_app_r (sub s1 s2 : pystr) :
  contains sub s2 = true → contains sub (s1 ++ s2) = true.
Proof.
  intros Hsub. induction s1 as [|c s1 IH]; [done |]. simpl.
  rewrite IH. apply orb_true_r.
Qed.

Lemma rfind_from_absent (c : N) (i found : Z) (s : pystr) :
  c ∉ s → rfind_from c i found s = found.
Proof.
  revert i found. induction s as [|d s IH]; intros i found; [done |].
  intros [Hd Hs]%not_elem_of_cons. simpl.
  rewrite (proj2 (N.eqb_neq d c)) by done. by apply IH.
Qed.

Lemma rfind_from_last (c : N) (i found : Z) (before after : pystr) :
  c ∉ after →
  rfind_from c i found (before ++ c :: after) = (i + Z.of_nat (length before))%Z.
Proof.
  intros Hafter. revert i found. induction before as [|d before IH]; intros i found.
  - simpl. rewrite N.eqb_refl, rfind_from_absent by done. lia.
  - simpl. rewrite IH. lia.
Qed.

Lemma header_line_name (name line : pystr) :
  61 ∉ name → header_line name line →
  taken_for_header line = true ∧ slice line (rfind 61 line + 2) (-3) = name.
Proof.
  intros Hname [indent ->]. split.
  - unfold taken_for_header. apply andb_true_iff. split.
    + apply contains_app_r, (contains_app_l _ (str "<object name=")). reflexivity.
    + apply contains_app_r, (contains_app_l _ (str "<object name=")). reflexivity.
  - assert (rfind 61 (indent ++ str "<object name=" ++ [34] ++ name ++ [34; 62; 10])
            = Z.of_nat (length (indent ++ str "<object name"))) as ->.
    { unfold rfind.
      change (indent ++ str "<object name=" ++ [34] ++ name ++ [34; 62; 10])
        with (indent ++ str "<object name" ++ 61 :: ([34] ++ name ++ [34; 62; 10])).
      rewrite (assoc_L (++)), rfind_from_last; [done |].
      intros [Hin|[Hin|Hin]%elem_of_app]%elem_of_app; [| done |].
      - by apply list_elem_of_singleton in Hin.
      - revert Hin. apply (bool_decide_unpack _). vm_compute. exact I. }
    unfold slice.
    replace (Z.to_nat (Z.of_nat (length (indent ++ str "<object name")) + 2))
      with (length (indent ++ str "<object name=" ++ [34]))
      by (rewrite !length_app; simpl; lia).
    rewrite !(assoc_L (++) indent), !(assoc_L (++) (indent ++ str "<object name=")).
    rewrite <- (assoc_L (++) indent).
    rewrite drop_app_length.
    rewrite !length_app. simpl length.
    replace (Z.to_nat _) with (length name) by lia.
    by rewrite take_app_length.
Qed.

Lemma attributes_lines (tags : list (option pystr)) (lines rest : list pystr)
    (closing : pystr) (captured_names : list pystr) :
  Forall2 xml_line tags lines → closing_line closing →
  _read_xml_file_attributes XMLFileReader_init captured_names (lines ++ closing :: rest)
  = captured_names ++ omap id tags.
Proof.
  intros Hlines [Hclosing Hend]. revert captured_names.
  induction Hlines as [|tag line tags lines Hline _ IH]; intros captured_names.
  - cbn [app _read_xml_file_attributes omap].
    change (contains (str "<" ++ _element XMLFileReader_init) closing
            && contains (_attribute XMLFileReader_init) closing)
      with (taken_for_header closing).
    rewrite Hclosing.
    change (str "</" ++ _parent XMLFileReader_init ++ str ">") with (str "</objects>").
    by rewrite Hend, app_nil_r.
  - cbn [app _read_xml_file_attributes].
    change (contains (str "<" ++ _element XMLFileReader_init) line
            && contains (_attribute XMLFileReader_init) line)
      with (taken_for_header line).
    change (str "</" ++ _parent XMLFileReader_init ++ str ">") with (str "</objects>").
    destruct tag as [name|]; simpl in Hline.
    + destruct Hline as [Hname Hline].
      destruct (header_line_name name line Hname Hline) as [-> ->].
      rewrite IH. csimpl. by rewrite <- app_assoc.
    + destruct Hline as [-> ->]. by rewrite IH.
Qed.
End XMLFacts.

(** X18. Every cell of every record the reader of XML files yields is one
    character long: of a line that holds a value, [read_record] keeps the
    character that follows the first closing angle bracket, and no
    more. *)
Theorem xml_cells_one_character (self : line_readers.XMLFileReader) (file : list pystr) :
  Forall (Forall (λ cell, length cell = 1%nat)) (line_readers.XML_read_record self file).1.
Proof.
  destruct file as [|first file]; [constructor |]. apply read_lines_cells. constructor.
Qed.

(** X19. From an XML file whose lines, up to the one that closes the
    parent, are openings of elements, each the tag with the name in
    quotes closed at the end of the line, and lines that are not taken for
    one, [get_headers] captures the names of the elements, in order; no
    line after the closing one is read. *)
Theorem xml_headers_round_trip (tags : list (option pystr)) (lines rest : list pystr)
    (closing : pystr) :
  Forall2 xml_line tags lines → closing_line closing →
  line_readers.XML_get_headers line_readers.XMLFileReader_init (lines ++ closing :: rest)
  = omap id tags.
Proof. intros Hlines Hclosing. by apply (attributes_lines tags lines rest closing []). Qed.

Lemma xml_headers_round_trip_witness :
  line_readers.XML_get_headers line_readers.XMLFileReader_init
    [ str "<objects>" ++ [10];
      str "  <object name=" ++ [34] ++ str "D1" ++ [34; 62; 10];
      str "    <value>12</value>" ++ [10];
      str "  </object>" ++ [10];
      str "</objects>" ++ [10];
      str "<object name=" ++ [34] ++ str "D7" ++ [34; 62; 10] ]
  = [str "D1"].
Proof.
  apply (xml_headers_round_trip [None; Some (str "D1"); None; None]
           [ str "<objects>" ++ [10];
             str "  <object name=" ++ [34] ++ str "D1" ++ [34; 62; 10];
             str "    <value>12</value>" ++ [10];
             str "  </object>" ++ [10] ]
           [str "<object name=" ++ [34] ++ str "D7" ++ [34; 62; 10]]
           (str "</objects>" ++ [10])).
  - repeat constructor.
    + apply (bool_decide_unpack _). vm_compute. exact I.
    + by exists (str "  ").
  - by split.
Defined.

(** ** The whole run *)
Section MainFacts.
Import data_clients.
Context `{SetOrder}.


Lemma writer_file (path : pystr) :
  WriteData_init path default_file_name default_extension
  = ([], Ok {| directory := path ++ str "result/";
               _file_generator :=
                 Some {| file_generators.generator := file_generators.TSVFileGenerator;
                         file_generators.file := path ++ str "result/result.tsv" |} |}).
Proof.
  unfold WriteData_init.
  change (file_generators.get_file_generator file_generators.FileGeneratorFactory
            (path ++ str "result/") default_file_name default_extension)
    with (Ok (file_generators.FileGenerator_init file_generators.TSVFileGenerator
                (path ++ str "result/") default_file_name default_extension)).
  unfold file_generators.FileGenerator_init, mret, io_ret. do 4 f_equal.
  by rewrite <- (assoc_L (++) path).
Qed.
End MainFacts.



(** ** The records of the JSON reader *)
Lemma read_items_groups (data_by_record : nat) (items : list (pystr * pystr))
    (raw_data : list pystr) :
  (length raw_data < data_by_record)%nat →
  let records := file_readers.read_items data_by_record raw_data items in
  Forall (λ record, length record = data_by_record) records
  ∧ concat records = take (data_by_record * length records) (raw_data ++ items.*2)
  ∧ (length raw_data + length items < data_by_record * S (length records))%nat.
Proof.
  revert raw_data. induction items as [|[key value] items IH]; intros raw_data Hraw;
    cbn [file_readers.read_items].
  - split; [constructor |]. split; [by rewrite Nat.mul_0_r | simpl; lia].
  - destruct (decide (length (raw_data ++ [value]) = data_by_record)) as [Hfull|Hmore].
    + destruct (IH []) as (Hall & Hconcat & Hlen); [simpl; lia |].
      rewrite length_app in Hfull. simpl in Hfull, Hlen.
      split; [constructor; [rewrite length_app; simpl; lia | done] |].
      split; [| simpl; lia].
      cbn [concat length]. rewrite Hconcat. csimpl.
      replace (raw_data ++ value :: items.*2) with ((raw_data ++ [value]) ++ items.*2)
        by (by rewrite <- app_assoc).
      replace (data_by_record * S (length (file_readers.read_items data_by_record [] items)))%nat
        with (length (raw_data ++ [value])
              + data_by_record * length (file_readers.read_items data_by_record [] items))%nat
        by (rewrite length_app; simpl; lia).
      by rewrite take_app_add.
    + rewrite length_app in Hmore. simpl in Hmore.
      destruct (IH (raw_data ++ [value])) as (Hall & Hconcat & Hlen).
      { rewrite length_app. simpl. lia. }
      split; [done |]. split.
      * rewrite Hconcat. csimpl. by rewrite <- app_assoc.
      * rewrite length_app in Hlen. simpl in *. lia.
Qed.

(** X21. With a number of cells per record that is not zero, the loop of
    the JSON reader yields the values of the items in order, in records of
    exactly that many cells; the values left over at the end, fewer than a
    record, are not yielded. *)
Theorem read_items_records (data_by_record : nat) (items : list (pystr * pystr)) :
  (0 < data_by_record)%nat →
  let records := file_readers.read_items data_by_record [] items in
  Forall (λ record, length record = data_by_record) records
  ∧ concat records = take (data_by_record * length records) (items.*2)
  ∧ (data_by_record * length records ≤ length items < data_by_record * S (length records))%nat.
Proof.
  intros Hpositive records.
  destruct (read_items_groups data_by_record items []) as (Hall & Hconcat & Hlen); [done |].
  fold records in Hall, Hconcat, Hlen. split; [done |]. split; [done |]. split; [| done].
  apply (f_equal length) in Hconcat. rewrite length_take in Hconcat.
  simpl in Hconcat. rewrite length_fmap in Hconcat.
  assert (length (concat records) = data_by_record * length records)%nat as Hsum; [| lia].
  clear -Hall. induction Hall as [|record records' Hrecord _ IH]; simpl; [lia |].
  rewrite length_app, IH, Hrecord. lia.
Qed.

Lemma read_items_records_witness :
  file_readers.read_items 2 []
    [(str "D1", str "1"); (str "M1", str "x"); (str "D1", str "2")]
  = [[str "1"; str "x"]]
  ∧ Forall (λ record : list pystr, length record = 2%nat)
      (file_readers.read_items 2 []
         [(str "D1", str "1"); (str "M1", str "x"); (str "D1", str "2")]).
Proof.
  split; [reflexivity |].
  apply (read_items_records 2 [(str "D1", str "1"); (str "M1", str "x"); (str "D1", str "2")]).
  lia.
Defined.

(** ** The descending sort *)

(** X22. [sort_alphanumeric] with [descending] set returns for exactly
    the lists it sorts in ascending order. What it returns are the names
    given, none missing and none repeated, in an order where no name has a
    smaller key than a name after it. *)
Theorem sort_alphanumeric_descending (strings : list pystr) :
  ((∃ s, functions.sort_alphanumeric strings true = Ok s)
   ↔ (∃ s, functions.sort_alphanumeric strings false = Ok s))
  ∧ ∀ s, functions.sort_alphanumeric strings true = Ok s →
         s ≡ₚ strings
         ∧ StronglySorted
             (λ a b, ∃ ka kb, functions.alphanum_key a = Ok ka
                              ∧ functions.alphanum_key b = Ok kb
                              ∧ functions.key_lt ka kb = Ok false) s.
Proof.
  assert (∀ a b, functions.key_lt b a = Ok false → ∃ r, functions.key_lt a b = Ok r)
    as Hback.
  { intros a b Hba. destruct (decide (b = a)) as [->|Hne]; [by eexists |].
    exists true. by apply list_lt_connex; [apply token_lt_connex | |]. }
  unfold functions.sort_alphanumeric. split.
  - split; intros [s Hs];
      eapply (sorted_either functions.key_lt functions.alphanum_key key_lt_asym
                key_not_lt_trans (list_lt_refl _) Hback); exact Hs.
  - intros s Hs. split; [by eapply sorted_Permutation |].
    apply (sorted_descending_StronglySorted _ _ key_lt_asym key_not_lt_trans) in Hs.
    eapply StronglySorted_weaken; [| exact Hs].
    intros a b (kb & ka & Hb & Ha & Hlt). by exists ka, kb.
Qed.

Lemma sort_alphanumeric_descending_witness :
  functions.sort_alphanumeric [str "D2"; str "M1"; str "D10"] true
  = Ok [str "M1"; str "D10"; str "D2"]
  ∧ [str "M1"; str "D10"; str "D2"] ≡ₚ [str "D2"; str "M1"; str "D10"].
Proof.
  split; [reflexivity |].
  by apply (sort_alphanumeric_descending [str "D2"; str "M1"; str "D10"]).
Defined.

(** ** JSON files in the selection *)
Section JSONFacts.
Import data_clients.

Lemma rsplit_cons_last (sep c : N) (s : pystr) :
  sep ∈ s → List.last (rsplit sep (c :: s)) [] = List.last (rsplit sep s) [].
Proof.
  intros Hsep. pose proof (rsplit_length sep s) as Hlen.
  assert (0 < length (filter (λ d, d = sep) s))%nat as Hcount.
  { destruct (filter (λ d, d = sep) s) as [|d ds] eqn:Hfilter; [| simpl; lia].
    assert (sep ∈ filter (λ d, d = sep) s) as Hin by (by apply list_elem_of_filter).
    rewrite Hfilter in Hin. by apply elem_of_nil in Hin. }
  simpl. destruct (rsplit sep s) as [|piece [|piece' pieces]]; simpl in Hlen; try lia.
  by destruct (c =? sep).
Qed.

Lemma rsplit_last (sep : N) (s tail : pystr) :
  sep ∉ tail → List.last (rsplit sep (s ++ sep :: tail)) [] = tail.
Proof.
  intros Htail. induction s as [|c s IH].
  - simpl. by rewrite N.eqb_refl, rsplit_absent.
  - change ((c :: s) ++ sep :: tail) with (c :: (s ++ sep :: tail)).
    rewrite rsplit_cons_last; [done |]. apply elem_of_app. right. by left.
Qed.

Lemma endswith_app (s suffix : pystr) : endswith (s ++ suffix) suffix = true.
Proof. unfold endswith. rewrite reverse_app. apply starts_with_app. Qed.

Lemma get_file_headers_json (d : file_readers.disk) (self : ProcessData) (name : pystr) :
  get_file_headers d self (name ++ str ".json")
  = ([], Raise (ValueError (str "binary mode doesn't take an encoding argument"))).
Proof.
  unfold get_file_headers, file_readers.get_file_reader.
  change (name ++ str ".json") with (name ++ 46 :: str "json") at 1.
  rewrite (rsplit_last 46 name (str "json"))
    by (apply (bool_decide_unpack _); vm_compute; exact I).
  change (file_readers.FileReaderFactory !! str "json") with (Some file_readers.JSONFileReader).
  unfold file_readers.get_headers, file_readers.opened, file_readers.FileReader_init. simpl.
  by rewrite (endswith_app name (str ".json")).
Qed.

Lemma get_file_headers_read (d : file_readers.disk) (self : ProcessData) (file : pystr) :
  line_read file → ∃ self', get_file_headers d self file = ([], Ok self').
Proof.
  intros (cls & Hcls & Hends & Hjson).
  unfold get_file_headers, file_readers.get_file_reader. fold (extension_of file).
  rewrite Hcls. unfold file_readers.get_headers, file_readers.opened. simpl.
  rewrite Hends. destruct cls; try done; by eexists.
Qed.

Lemma discovery_before (d : file_readers.disk) (before : list pystr) (self : ProcessData) :
  Forall (λ file, registered file → line_read file) before →
  ∃ self',
    for_each (get_file_headers d) before self
    = (unsupported_line <$> filter (λ file, ¬ registered file) before, Ok self').
Proof.
  intros Hbefore. revert self.
  induction Hbefore as [|file before Hfile _ IH]; intros self; [by eexists |].
  cbn [for_each]. destruct (decide (registered file)) as [Hreg|Hreg].
  - destruct (get_file_headers_read d self file (Hfile Hreg)) as [self1 Hself1].
    destruct (IH self1) as [self' Hself'].
    exists self'. rewrite filter_cons_False by auto.
    eapply io_bind_pure; [exact Hself1 | exact Hself'].
  - destruct (IH self) as [self' Hself'].
    exists self'. rewrite filter_cons_True by done.
    eapply (io_bind_step _ _ [_]); [by apply get_file_headers_unregistered | exact Hself'].
Qed.

Lemma discovery_json (d : file_readers.disk) (files : list (list pystr)) (self : ProcessData)
    (before after : list pystr) (name : pystr) :
  concat files = before ++ (name ++ str ".json") :: after →
  Forall (λ file, registered file → line_read file) before →
  get_all_headers d self files
  = (unsupported_line <$> filter (λ file, ¬ registered file) before,
     Raise (ValueError (str "binary mode doesn't take an encoding argument"))).
Proof.
  intros Hfiles Hbefore. unfold get_all_headers.
  rewrite for_each_concat, Hfiles, for_each_app.
  destruct (discovery_before d before self Hbefore) as [self' Hself'].
  rewrite <- (app_nil_r (unsupported_line <$> _)).
  eapply io_bind_step; [exact Hself' |].
  cbn [for_each]. by rewrite get_file_headers_json.
Qed.
End JSONFacts.

(** X23. A selection that holds a file named with the extension json,
    after files that are read by lines or have no reader, stops the run at
    the discovery of the headers: the JSON reader opens its file in binary
    mode with an encoding, so [get_all_headers] raises the value error of
    [open], having printed the error lines of the files before; and
    [process_data] of the main module raises it too, no directory made and
    no file written. *)
Theorem json_file_stops_run `{SetOrder} `{FileSystem} (d : file_readers.disk) (path : pystr)
    (self : data_clients.ProcessData) (files : list (list pystr))
    (before after : list pystr) (name : pystr) :
  concat files = before ++ (name ++ str ".json") :: after →
  Forall (λ file, registered file → line_read file) before →
  data_clients.get_all_headers d self files
  = (unsupported_line <$> filter (λ file, ¬ registered file) before,
     Raise (ValueError (str "binary mode doesn't take an encoding argument")))
  ∧ main.process_data d path files
    = (unsupported_line <$> filter (λ file, ¬ registered file) before,
       Raise (ValueError (str "binary mode doesn't take an encoding argument"))).
Proof.
  intros Hfiles Hbefore. split; [by eapply discovery_json |].
  unfold main.process_data, main.process_headers. rewrite writer_file.
  rewrite (discovery_json d files _ before after name Hfiles Hbefore).
  reflexivity.
Qed.

Lemma json_file_stops_run_witness :
  main.process_data example_disk (str "/in/")
    [[str "a.csv"; str "notes.txt"]; [str "j.json"]; [str "x.xml"]]
  = ([Stdout (str "Error: The extension 'txt' is not supported.")],
     Raise (ValueError (str "binary mode doesn't take an encoding argument"))).
Proof.
  apply (json_file_stops_run example_disk (str "/in/") (data_clients.ProcessData_init [])
           [[str "a.csv"; str "notes.txt"]; [str "j.json"]; [str "x.xml"]]
           [str "a.csv"; str "notes.txt"] [str "x.xml"] (str "j")).
  - reflexivity.
  - repeat constructor.
    + intros _. exists file_readers.CSVFileReader. by repeat split.
    + intros Hreg. exfalso. revert Hreg. apply (bool_decide_unpack _). vm_compute. exact I.
Defined.

(** ** The generators of the kept files *)
Section DecodedFacts.
Import data_clients.

Lemma starts_with_inv (sub s : pystr) :
  starts_with sub s = true → ∃ rest, s = sub ++ rest.
Proof.
  revert s. induction sub as [|c sub IH]; intros [|d s]; simpl; try done.
  - by exists [].
  - by exists (d :: s).
  - intros [->%N.eqb_eq Hsub]%andb_true_iff. destruct (IH s Hsub) as [rest ->].
    by exists rest.
Qed.

Lemma endswith_inv (s suffix : pystr) :
  endswith s suffix = true → ∃ stem, s = stem ++ suffix.
Proof.
  unfold endswith. intros [rest Hrest]%starts_with_inv. exists (reverse rest).
  by rewrite <- (reverse_involutive s), Hrest, reverse_app, reverse_involutive.
Qed.

Lemma line_read_extension (path file : pystr) :
  line_read file →
  extension_of (path ++ file) = extension_of file
  ∧ (extension_of file = str "csv" ∨ extension_of file = str "xml").
Proof.
  intros (cls & _ & Hends & Hjson). apply endswith_inv in Hends as [stem ->].
  unfold extension_of.
  destruct cls; [| done |].
  - change (file_readers.extension file_readers.CSVFileReader) with (46 :: str "csv").
    rewrite (assoc_L (++) path), !rsplit_last
      by (apply (bool_decide_unpack _); vm_compute; exact I).
    split; [done | by left].
  - change (file_readers.extension file_readers.XMLFileReader) with (46 :: str "xml").
    rewrite (assoc_L (++) path), !rsplit_last
      by (apply (bool_decide_unpack _); vm_compute; exact I).
    split; [done | by right].
Qed.
End DecodedFacts.

(** X6. On a machine whose disk is what the decoders of lines make of its
    text files: when [get_all_headers] returns on a fresh [ProcessData] and
    every file kept has a first line and a generator of records that ends
    without an error, [get_data_generators] prints nothing and makes one
    generator for every file kept, in order, each with exactly the records
    the reader of lines of that file yields, before it ends, from the lines
    of the file under the source path. No kept file is refused by the
    factory or fails to open. *)
Theorem discovered_files_are_read (t : texts) (path : pystr)
    (files : list (list pystr)) (events : list event) (self' : data_clients.ProcessData) :
  data_clients.get_all_headers (decoded t) (data_clients.ProcessData_init path) files
  = (events, Ok self') →
  Forall (λ file, t (path ++ file) ≠ []
                  ∧ (line_records file (t (path ++ file))).2 = line_readers.Exhausted)
    (data_clients._file_names self') →
  ∃ generators,
    data_clients.get_data_generators (decoded t) self' = ([], Ok generators)
    ∧ Forall2 (λ file generator,
                 ∃ rows, generator = Ok rows
                         ∧ line_records file (t (path ++ file))
                           = (rows, line_readers.Exhausted))
        (data_clients._file_names self') generators.
Proof.
  unfold data_clients.get_all_headers. rewrite for_each_concat. intros Hget Hends.
  assert (Hread := discovery_line_read _ _ _ _ _ Hget).
  apply discovery_Ok in Hget as (Hnames & Hhbf & _ & _ & _ & Hpath).
  simpl in Hnames, Hhbf, Hpath. unfold data_clients.get_data_generators.
  rewrite generators_line_read;
    [| by rewrite Hnames | by rewrite Hnames, Hhbf, length_fmap].
  eexists. split; [done |]. simpl. rewrite Hpath.
  apply Forall2_fmap_r, Forall_Forall2_diag.
  rewrite Hnames in Hends |- *.
  apply Forall_forall. intros file Hfile.
  rewrite Forall_forall in Hread, Hends.
  destruct (Hends file Hfile) as [_ Hend].
  destruct (line_read_extension path file (Hread file Hfile)) as [Hextension _].
  eexists. split; [done |]. simpl. unfold line_records in *. rewrite Hextension.
  rewrite <- Hend. by destruct (if decide _ then _ else _).
Qed.

Lemma discovered_files_are_read_witness :
  ∃ self' generators,
    data_clients._file_names self' = [str "a.csv"; str "x.xml"]
    ∧ data_clients.get_data_generators (decoded example_texts) self' = ([], Ok generators)
    ∧ length generators = 2%nat.
Proof.
  assert (∃ events self',
            data_clients.get_all_headers (decoded example_texts)
              (data_clients.ProcessData_init (str "/in/"))
              [[str "a.csv"; str "notes.txt"]; [str "x.xml"]] = (events, Ok self')
            ∧ data_clients._file_names self' = [str "a.csv"; str "x.xml"])
    as (events & self' & Hget & Hnames).
  { eexists _, _. split; [vm_compute; reflexivity | reflexivity]. }
  destruct (discovered_files_are_read example_texts (str "/in/") _ _ _ Hget)
    as (generators & Hgenerators & Hrows).
  - rewrite Hnames. repeat constructor; try done.
  - exists self', generators. split; [done |]. split; [done |].
    apply Forall2_length in Hrows. rewrite Hnames in Hrows. by symmetry.
Defined.
